(** * CCMHA schedule change detector: window filter and diff engine

    A shallow embedding of [ccmha_change_detector.py]: the identity key
    ([create_schedule_key]), the key based diff ([detect_changes]), the
    canonical hash ([create_schedule_hash]), the window filter
    ([filter_next_n_days]) and the row order used by
    [format_changes_for_email].

    Conventions of the model.
    - A schedule item is a Python [dict] from field names to text; it is a
      finite map [gmap string string], so an absent field is an absent key.
      A Python [str] is a [string] whose characters are code points below
      256; comparison of [str] is comparison of code points.
    - A raised exception is a value: functions that can raise return
      [res A], and [try ... except] is a match on it.
    - The iteration order of a Python [set] is not fixed by the language;
      it is a parameter ([set_order]) of every function that iterates one. *)

From Stdlib Require Import ZArith String Ascii.
From Stdlib Require OrdersEx.
From stdpp Require Import gmap strings list fin_maps sorting.

Open Scope string_scope.

(** ** Exceptions *)

Inductive exn : Type :=
  | KeyError (k : string)
  | ValueError.

Inductive res (A : Type) : Type :=
  | Ok (a : A)
  | Raise (e : exn).

Arguments Ok {A} a.
Arguments Raise {A} e.

#[global] Instance res_ret : MRet res := @Ok.
#[global] Instance res_bind : MBind res := λ A B f m,
  match m with
  | Ok a => f a
  | Raise e => Raise e
  end.

Definition is_Ok {A} (m : res A) : Prop := ∃ a, m = Ok a.

#[global] Instance exn_eq_dec : EqDecision exn.
Proof. solve_decision. Defined.
#[global] Instance res_eq_dec {A} `{EqDecision A} : EqDecision (res A).
Proof. solve_decision. Defined.

(** ** Items *)

Abbreviation item := (gmap string string).

(** [d[k]]: subscripting raises [KeyError] on an absent key. *)
Definition getitem {V} (d : gmap string V) (k : string) : res V :=
  match d !! k with
  | Some v => Ok v
  | None => Raise (KeyError k)
  end.

(** [d.get(k)]: [None] on an absent key. *)
Definition get (d : item) (k : string) : option string := d !! k.

(** [d.get(k, default)]. *)
Definition get_default (d : item) (k : string) (default : string) : string :=
  match d !! k with
  | Some v => v
  | None => default
  end.

(** ** Identity key *)

(** [f"{item['date']}_{item['start_time']}_{item['type']}_{item['league']}"]:
    the four subscripts are evaluated left to right. *)
Definition create_schedule_key (it : item) : res string :=
  date ← getitem it "date";
  start_time ← getitem it "start_time";
  type ← getitem it "type";
  league ← getitem it "league";
  Ok (date ++ "_" ++ start_time ++ "_" ++ type ++ "_" ++ league).

(** ** Sets and their iteration order *)

(** The order in which a [set] of strings yields its elements depends on
    their hashes, which change from one process to the next: a run can meet
    any arrangement of the elements. *)
Record set_order : Type := SetOrder {
  iter : gset string → list string;
  iter_perm : ∀ s, iter s ≡ₚ elements s
}.

Definition str_le (a b : string) : Prop := String.leb a b = true.
Definition str_ge (a b : string) : Prop := String.leb b a = true.

#[global] Instance str_le_dec a b : Decision (str_le a b).
Proof. unfold str_le. apply _. Defined.
#[global] Instance str_ge_dec a b : Decision (str_ge a b).
Proof. unfold str_ge. apply _. Defined.

(** Two iteration orders a run can meet: ascending and descending keys. *)
Definition ascending_order : set_order :=
  {| iter := λ s, merge_sort str_le (elements s);
     iter_perm := λ s, merge_sort_Permutation str_le (elements s) |}.

Definition descending_order : set_order :=
  {| iter := λ s, merge_sort str_ge (elements s);
     iter_perm := λ s, merge_sort_Permutation str_ge (elements s) |}.

(** ** Diff engine *)

Record ChangeReport : Type := {
  added : list item;
  removed : list item;
  modified : list (string * item * item);
  has_changes : bool
}.

(** [{create_schedule_key(item): item for item in items}], started from
    [acc]: a later item with the same key overwrites an earlier one. *)
Fixpoint key_dict (items : list item) (acc : gmap string item)
  : res (gmap string item) :=
  match items with
  | [] => Ok acc
  | it :: rest =>
      k ← create_schedule_key it;
      key_dict rest (<[k := it]> acc)
  end.

(** [[d[key] for key in keys]]. *)
Fixpoint lookup_all (d : gmap string item) (keys : list string)
  : res (list item) :=
  match keys with
  | [] => Ok []
  | key :: rest =>
      v ← getitem d key;
      vs ← lookup_all d rest;
      Ok (v :: vs)
  end.

(** The test of lines 116-118. *)
Definition details_differ (old_item new_item : item) : bool :=
  bool_decide (get old_item "team" ≠ get new_item "team")
  || bool_decide (get old_item "venue" ≠ get new_item "venue")
  || bool_decide (get old_item "end_time" ≠ get new_item "end_time").

(** The loop of lines 110-119 over the keys still to visit. *)
Fixpoint modified_loop (old_keys new_keys : gmap string item)
    (keys : list string) (modified_keys : list (string * item * item))
  : res (list (string * item * item)) :=
  match keys with
  | [] => Ok modified_keys
  | key :: rest =>
      old_item ← getitem old_keys key;
      new_item ← getitem new_keys key;
      if details_differ old_item new_item
      then modified_loop old_keys new_keys rest
             (modified_keys ++ [(key, old_item, new_item)])%list
      else modified_loop old_keys new_keys rest modified_keys
  end.

Definition detect_changes (ord : set_order) (old_items new_items : list item)
  : res ChangeReport :=
  old_keys ← key_dict old_items ∅;
  new_keys ← key_dict new_items ∅;
  let old_key_set : gset string := dom old_keys in
  let new_key_set : gset string := dom new_keys in
  let added_keys := new_key_set ∖ old_key_set in
  let removed_keys := old_key_set ∖ new_key_set in
  let common_keys := old_key_set ∩ new_key_set in
  modified_keys ← modified_loop old_keys new_keys (iter ord common_keys) [];
  added_items ← lookup_all new_keys (iter ord added_keys);
  removed_items ← lookup_all old_keys (iter ord removed_keys);
  Ok {| added := added_items;
        removed := removed_items;
        modified := modified_keys;
        has_changes := (0 <? size added_keys)%nat
                       || (0 <? size removed_keys)%nat
                       || (0 <? length modified_keys)%nat |}.

(** ** Vocabulary of the claims about the diff *)

(** An item carries the four identity fields. *)
Definition has_identity (it : item) : Prop :=
  is_Some (it !! "date") ∧ is_Some (it !! "start_time")
  ∧ is_Some (it !! "type") ∧ is_Some (it !! "league").

(** The keys of the items of a list. *)
Fixpoint keys_of (items : list item) : gset string :=
  match items with
  | [] => ∅
  | it :: rest =>
      match create_schedule_key it with
      | Ok k => {[k]} ∪ keys_of rest
      | Raise _ => keys_of rest
      end
  end.

(** The entry a collection holds under a key: the last one with that key. *)
Fixpoint entry_under (k : string) (items : list item) : option item :=
  match items with
  | [] => None
  | it :: rest =>
      match entry_under k rest with
      | Some e => Some e
      | None => if bool_decide (create_schedule_key it = Ok k)
                then Some it else None
      end
  end.

(** The keys underlying the modification triples. *)
Definition modified_keys_of (r : ChangeReport) : gset string :=
  list_to_set ((λ t, t.1.1) <$> modified r).

(** Keys held by both collections whose entries agree on [team], [venue]
    and [end_time]. *)
Definition agree_under (old_items new_items : list item) (k : string) : bool :=
  match entry_under k old_items, entry_under k new_items with
  | Some o, Some n => negb (details_differ o n)
  | _, _ => false
  end.

Definition unchanged_keys (old_items new_items : list item) : gset string :=
  filter (λ k, agree_under old_items new_items k = true)
         (keys_of old_items ∩ keys_of new_items).

(** What one pass of the loop contributes for a key. *)
Definition triple_of (old_keys new_keys : gmap string item) (k : string)
  : option (string * item * item) :=
  match old_keys !! k, new_keys !! k with
  | Some o, Some n => if details_differ o n then Some (k, o, n) else None
  | _, _ => None
  end.

(** What [detect_changes] returns, read off the two key dictionaries. *)
Record report_of (ord : set_order) (old_keys new_keys : gmap string item)
    (r : ChangeReport) : Prop := {
  ro_added :
    Forall2 (λ k v, new_keys !! k = Some v)
            (iter ord (dom new_keys ∖ dom old_keys)) (added r);
  ro_removed :
    Forall2 (λ k v, old_keys !! k = Some v)
            (iter ord (dom old_keys ∖ dom new_keys)) (removed r);
  ro_modified :
    modified r = omap (triple_of old_keys new_keys)
                      (iter ord (dom old_keys ∩ dom new_keys));
  ro_has_changes :
    has_changes r = (0 <? size (dom new_keys ∖ dom old_keys))%nat
                    || (0 <? size (dom old_keys ∖ dom new_keys))%nat
                    || (0 <? length (modified r))%nat
}.

(** The key the specification describes: an absent field counts as [""]. *)
Definition key_with_defaults (it : item) : string :=
  get_default it "date" "" ++ "_" ++ get_default it "start_time" "" ++ "_"
  ++ get_default it "type" "" ++ "_" ++ get_default it "league" "".

Definition empty_report : ChangeReport :=
  {| added := []; removed := []; modified := []; has_changes := false |}.

(** Items used in the examples below. *)
Definition mk_item (date start_time end_time type league team venue : string)
  : item :=
  <["date" := date]> (<["start_time" := start_time]>
  (<["end_time" := end_time]> (<["type" := type]> (<["league" := league]>
  (<["team" := team]> (<["venue" := venue]> ∅)))))).

Definition game_june1 : item :=
  mk_item "2024-06-01" "18:00" "19:00" "Game" "LeagueA" "TeamX vs TeamY" "VenueY".
Definition game_june1_moved : item :=
  mk_item "2024-06-01" "18:00" "19:00" "Game" "LeagueA" "TeamX vs TeamQ" "VenueY".
Definition practice_june2 : item :=
  mk_item "2024-06-02" "09:00" "10:00" "Practice" "LeagueA" "TeamZ" "VenueY".
Definition practice_june3 : item :=
  mk_item "2024-06-03" "09:00" "10:00" "Practice" "LeagueA" "TeamZ" "VenueY".
Definition no_date_item : item :=
  delete "date" game_june1.

(** ** [sorted] with a key function *)

(** Comparison of tuples of [str]: the first components that differ decide. *)
Definition tuple2_lt (a b : string * string) : bool :=
  if String.eqb a.1 b.1 then String.ltb a.2 b.2 else String.ltb a.1 b.1.

(** Lexicographic comparison of pairs, the order [tuple2_lt] decides. *)
Definition pair_compare (a b : string * string) : comparison :=
  match String.compare a.1 b.1 with
  | Eq => String.compare a.2 b.2
  | c => c
  end.

Definition tuple3_lt (a b : string * string * string) : bool :=
  if String.eqb a.1.1 b.1.1
  then (if String.eqb a.1.2 b.1.2 then String.ltb a.2 b.2
        else String.ltb a.1.2 b.1.2)
  else String.ltb a.1.1 b.1.1.

Section Sorted.
Context {K : Type} (lt : K → K → bool).

(** The key of every element is computed first, in list order. *)
Fixpoint decorate (key : item → res K) (l : list item)
  : res (list (K * item)) :=
  match l with
  | [] => Ok []
  | x :: rest =>
      k ← key x;
      krest ← decorate key rest;
      Ok ((k, x) :: krest)
  end.

(** [sorted] is stable: among equal keys the input order is kept. The
    stable sorted arrangement of a list is unique, and this insertion
    sort computes it: [x], which precedes all of [l] in the input, goes
    in front of the first element whose key is not smaller. *)
Fixpoint insert_keyed (x : K * item) (l : list (K * item))
  : list (K * item) :=
  match l with
  | [] => [x]
  | y :: l' => if lt y.1 x.1 then y :: insert_keyed x l' else x :: y :: l'
  end.

Definition sort_keyed (l : list (K * item)) : list (K * item) :=
  foldr insert_keyed [] l.

(** [sorted(l, key=key)]. *)
Definition sorted (key : item → res K) (l : list item) : res (list item) :=
  kl ← decorate key l;
  Ok (snd <$> sort_keyed kl).
End Sorted.

(** ** The rows written by [format_changes_for_email] *)

(** [lambda x: (x['date'], x['start_time'])]. *)
Definition date_start_key (x : item) : res (string * string) :=
  d ← getitem x "date";
  s ← getitem x "start_time";
  Ok (d, s).

Definition is_nil {A} (l : list A) : bool :=
  match l with [] => true | _ => false end.


(** Ascending order of items by [(date, start_time)]. *)
Definition date_start_le (x y : item) : Prop :=
  match date_start_key x, date_start_key y with
  | Ok kx, Ok ky => tuple2_lt ky kx = false
  | _, _ => False
  end.

(** ** Dates and instants *)

(** A naive [datetime] is an instant: a number of microseconds since the
    midnight that starts day 0; a [date] is a number of days ([toordinal]).
    The bounds of the calendar (years 1 to 9999) are not modelled. *)
Definition microseconds_per_day : Z := 86400000000.
Definition microseconds_per_hour : Z := 3600000000.

(** [dt.date()]. *)
Definition date_of (dt : Z) : Z := dt `div` microseconds_per_day.

(** The three formats handed to [datetime.strptime]. *)
Inductive format : Type :=
  | FmtDate      (* '%Y-%m-%d' *)
  | FmtDateHM    (* '%Y-%m-%d %H:%M' *)
  | FmtDateHMS.  (* '%Y-%m-%d %H:%M:%S' *)

(** [sub in s] and [s.count(sub)] for a one-character [sub]. *)
Fixpoint count_char (c : ascii) (s : string) : nat :=
  match s with
  | EmptyString => 0
  | String c' s' => (if Ascii.eqb c c' then 1 else 0) + count_char c s'
  end.

Definition contains_char (c : ascii) (s : string) : bool :=
  (0 <? count_char c s)%nat.

Definition is_empty_str (s : string) : bool :=
  match s with EmptyString => true | _ => false end.

(** ** Window filter *)

Section WindowFilter.
(** [datetime.strptime(text, format)] of the standard library: the
    instant parsed, or [None] when it raises [ValueError]. *)
Variable strptime : string → format → option Z.

Definition strptime_res (text : string) (fmt : format) : res Z :=
  match strptime text fmt with
  | Some dt => Ok dt
  | None => Raise ValueError
  end.

(** The format chosen on line 59. *)
Definition time_format (start_time_str : string) : format :=
  if contains_char ":" start_time_str
     && (count_char ":" start_time_str =? 2)%nat
  then FmtDateHMS else FmtDateHM.

(** Lines 56-65, the body of the inner [try]: whether the item of today
    is appended. *)
Definition today_body (now : Z) (it : item) : res bool :=
  let start_time_str := get_default it "start_time" "" in
  if negb (is_empty_str start_time_str) then
    date ← getitem it "date";
    game_datetime ← strptime_res (date ++ " " ++ start_time_str)
                                 (time_format start_time_str);
    Ok (bool_decide (game_datetime > now - 1 * microseconds_per_hour)%Z)
  else Ok true.

(** Lines 55-68: [except (ValueError, KeyError)] appends the item. *)
Definition today_keep (now : Z) (it : item) : bool :=
  match today_body now it with
  | Ok b => b
  | Raise (ValueError | KeyError _) => true
  end.

(** Lines 47-68, the body of the outer [try]: whether the item is
    appended. *)
Definition window_body (now : Z) (days : Z) (it : item) : res bool :=
  let today := date_of now in
  let end_date := (today + days)%Z in
  date_str ← getitem it "date";
  dt ← strptime_res date_str FmtDate;
  let item_date := date_of dt in
  if bool_decide (item_date > today)%Z && bool_decide (item_date ≤ end_date)%Z
  then Ok true
  else if bool_decide (item_date = today)
  then Ok (today_keep now it)
  else Ok false.

(** Lines 45-72: the loop, [filtered] being the list built so far; on
    [ValueError] or [KeyError] the item is logged and skipped. *)
Fixpoint filter_loop (now : Z) (days : Z) (items filtered : list item)
  : list item :=
  match items with
  | [] => filtered
  | it :: rest =>
      match window_body now days it with
      | Ok true => filter_loop now days rest (filtered ++ [it])%list
      | Ok false => filter_loop now days rest filtered
      | Raise (ValueError | KeyError _) => filter_loop now days rest filtered
      end
  end.

(** [filter_next_n_days(items, days)] run at the instant [now]
    ([datetime.now()]). *)
Definition filter_next_n_days (now : Z) (items : list item) (days : Z)
  : list item :=
  filter_loop now days items [].

(** The decision the loop takes for one item. *)
Definition keeps (now : Z) (days : Z) (it : item) : bool :=
  match window_body now days it with
  | Ok b => b
  | Raise _ => false
  end.
End WindowFilter.

(** ** A parser for the examples *)

Definition digit_val (c : ascii) : option Z :=
  let n := Z.of_N (N_of_ascii c) in
  if (48 <=? n)%Z && (n <=? 57)%Z then Some (n - 48)%Z else None.

Definition two_digits (a b : ascii) : option Z :=
  x ← digit_val a; y ← digit_val b; Some (10 * x + y)%Z.

Definition is_leap (y : Z) : bool :=
  (y `mod` 4 =? 0)%Z && (negb (y `mod` 100 =? 0)%Z || (y `mod` 400 =? 0)%Z).

Definition days_in_month (y m : Z) : Z :=
  if (m =? 2)%Z then (if is_leap y then 29 else 28)%Z
  else if ((m =? 4) || (m =? 6) || (m =? 9) || (m =? 11))%Z then 30%Z
  else 31%Z.

Definition days_before_year (y : Z) : Z :=
  let p := (y - 1)%Z in (p * 365 + p `div` 4 - p `div` 100 + p `div` 400)%Z.

Definition days_before_month (y m : Z) : Z :=
  (nth (Z.to_nat (m - 1)) [0; 31; 59; 90; 120; 151; 181; 212; 243; 273; 304; 334] 0
   + (if (2 <? m)%Z && is_leap y then 1 else 0))%Z.

(** [date(y, m, d).toordinal()]. *)
Definition ymd_to_ordinal (y m d : Z) : Z :=
  (days_before_year y + days_before_month y m + d)%Z.

Definition parse_date_text (s : string) : option (Z * string) :=
  match s with
  | String y1 (String y2 (String y3 (String y4 (String "-"
      (String m1 (String m2 (String "-" (String d1 (String d2 rest))))))))) =>
      yh ← two_digits y1 y2; yl ← two_digits y3 y4;
      m ← two_digits m1 m2; d ← two_digits d1 d2;
      let y := (100 * yh + yl)%Z in
      if (1 <=? y)%Z && (1 <=? m)%Z && (m <=? 12)%Z
         && (1 <=? d)%Z && (d <=? days_in_month y m)%Z
      then Some (ymd_to_ordinal y m d, rest) else None
  | _ => None
  end.

Definition parse_hm_text (s : string) : option (Z * string) :=
  match s with
  | String " " (String h1 (String h2 (String ":" (String n1 (String n2 rest))))) =>
      h ← two_digits h1 h2; n ← two_digits n1 n2;
      if (h <=? 23)%Z && (n <=? 59)%Z
      then Some ((h * 3600 + n * 60)%Z, rest) else None
  | _ => None
  end.

Definition parse_s_text (s : string) : option Z :=
  match s with
  | String ":" (String s1 (String s2 EmptyString)) =>
      sec ← two_digits s1 s2;
      if (sec <=? 59)%Z then Some sec else None
  | _ => None
  end.

(** [datetime.strptime] on zero-padded text: [YYYY-MM-DD],
    [YYYY-MM-DD HH:MM] and [YYYY-MM-DD HH:MM:SS] are parsed to the instant
    [strptime] returns for them; any other text is rejected. It stands for
    [strptime] in the examples, which use zero-padded text only. *)
Definition strptime_padded (text : string) (fmt : format) : option Z :=
  '(day, rest) ← parse_date_text text;
  match fmt with
  | FmtDate =>
      if is_empty_str rest then Some (day * microseconds_per_day)%Z else None
  | FmtDateHM =>
      '(secs, rest') ← parse_hm_text rest;
      if is_empty_str rest'
      then Some (day * microseconds_per_day + secs * 1000000)%Z else None
  | FmtDateHMS =>
      '(secs, rest') ← parse_hm_text rest;
      sec ← parse_s_text rest';
      Some (day * microseconds_per_day + (secs + sec) * 1000000)%Z
  end.

(** Noon of 2024-06-01. *)
Definition noon_june1 : Z :=
  (ymd_to_ordinal 2024 6 1 * microseconds_per_day
   + 12 * microseconds_per_hour)%Z.

Definition game_june8 : item :=
  mk_item "2024-06-08" "18:00" "19:00" "Game" "LeagueA" "TeamX vs TeamY" "VenueY".
Definition game_may31 : item :=
  mk_item "2024-05-31" "18:00" "19:00" "Game" "LeagueA" "TeamX vs TeamY" "VenueY".

(** How many times an item occurs in a list. *)
Definition occurrences (it : item) (l : list item) : nat :=
  length (filter (λ x, x = it) l).

(** ** JSON text of a list of items *)

Definition hex_digit (n : Z) : ascii :=
  ascii_of_N (Z.to_N (if (n <? 10)%Z then 48 + n else 87 + n)%Z).

(** The escape of one character by [json.dumps] with [ensure_ascii]:
    the short escapes, [\u00xx] for the other characters outside
    [' '..'~'], the character itself otherwise. *)
Definition json_escape_char (c : ascii) : string :=
  let n := Z.of_N (N_of_ascii c) in
  if (n =? 34)%Z then "\" ++ String c ""
  else if (n =? 92)%Z then "\\"
  else if (n =? 10)%Z then "\n"
  else if (n =? 13)%Z then "\r"
  else if (n =? 9)%Z then "\t"
  else if (n =? 8)%Z then "\b"
  else if (n =? 12)%Z then "\f"
  else if (32 <=? n)%Z && (n <=? 126)%Z then String c ""
  else "\u00" ++ String (hex_digit (n `div` 16)) (String (hex_digit (n `mod` 16)) "").

Fixpoint json_escape (s : string) : string :=
  match s with
  | EmptyString => ""
  | String c s' => json_escape_char c ++ json_escape s'
  end.

Definition json_str (s : string) : string :=
  String (ascii_of_N 34) (json_escape s) ++ String (ascii_of_N 34) "".

(** [sep.join(parts)]. *)
Fixpoint join (sep : string) (parts : list string) : string :=
  match parts with
  | [] => ""
  | [p] => p
  | p :: rest => p ++ sep ++ join sep rest
  end.

Definition key_le (a b : string * string) : Prop := str_le a.1 b.1.

#[global] Instance key_le_dec a b : Decision (key_le a b).
Proof. unfold key_le. apply _. Defined.

(** A dictionary with [sort_keys=True]: the members in ascending order of
    their keys, separated by [", "], key and value by [": "]. *)
Definition json_dict (d : item) : string :=
  "{" ++ join ", " ((λ kv, json_str kv.1 ++ ": " ++ json_str kv.2)
                      <$> merge_sort key_le (map_to_list d)) ++ "}".

(** [json.dumps(items, sort_keys=True)]. *)
Definition json_dumps (items : list item) : string :=
  "[" ++ join ", " (json_dict <$> items) ++ "]".

(** ** MD5 (RFC 1321), as [hashlib.md5] computes it *)

Definition mask32 : Z := 0xffffffff.

Definition add32 (a b : Z) : Z := Z.land (a + b) mask32.

Definition not32 (a : Z) : Z := Z.lxor a mask32.

Definition rotl32 (x c : Z) : Z :=
  Z.land (Z.lor (Z.shiftl x c) (Z.shiftr x (32 - c))) mask32.

Definition md5_shifts : list Z :=
  [7; 12; 17; 22; 7; 12; 17; 22; 7; 12; 17; 22; 7; 12; 17; 22;
   5; 9; 14; 20; 5; 9; 14; 20; 5; 9; 14; 20; 5; 9; 14; 20;
   4; 11; 16; 23; 4; 11; 16; 23; 4; 11; 16; 23; 4; 11; 16; 23;
   6; 10; 15; 21; 6; 10; 15; 21; 6; 10; 15; 21; 6; 10; 15; 21]%Z.

Definition md5_sines : list Z :=
  [0xd76aa478; 0xe8c7b756; 0x242070db; 0xc1bdceee;
   0xf57c0faf; 0x4787c62a; 0xa8304613; 0xfd469501;
   0x698098d8; 0x8b44f7af; 0xffff5bb1; 0x895cd7be;
   0x6b901122; 0xfd987193; 0xa679438e; 0x49b40821;
   0xf61e2562; 0xc040b340; 0x265e5a51; 0xe9b6c7aa;
   0xd62f105d; 0x02441453; 0xd8a1e681; 0xe7d3fbc8;
   0x21e1cde6; 0xc33707d6; 0xf4d50d87; 0x455a14ed;
   0xa9e3e905; 0xfcefa3f8; 0x676f02d9; 0x8d2a4c8a;
   0xfffa3942; 0x8771f681; 0x6d9d6122; 0xfde5380c;
   0xa4beea44; 0x4bdecfa9; 0xf6bb4b60; 0xbebfbc70;
   0x289b7ec6; 0xeaa127fa; 0xd4ef3085; 0x04881d05;
   0xd9d4d039; 0xe6db99e5; 0x1fa27cf8; 0xc4ac5665;
   0xf4292244; 0x432aff97; 0xab9423a7; 0xfc93a039;
   0x655b59c3; 0x8f0ccc92; 0xffeff47d; 0x85845dd1;
   0x6fa87e4f; 0xfe2ce6e0; 0xa3014314; 0x4e0811a1;
   0xf7537e82; 0xbd3af235; 0x2ad7d2bb; 0xeb86d391]%Z.

Definition md5_state : Type := Z * Z * Z * Z.

Definition md5_init : md5_state :=
  (0x67452301, 0xefcdab89, 0x98badcfe, 0x10325476)%Z.

(** One of the 64 operations on a block of 16 words. *)
Definition md5_step (words : list Z) (st : md5_state) (i : nat) : md5_state :=
  let '(a, b, c, d) := st in
  let iz := Z.of_nat i in
  let '(f, g) :=
    if (i <? 16)%nat then (Z.lor (Z.land b c) (Z.land (not32 b) d), iz)
    else if (i <? 32)%nat
    then (Z.lor (Z.land d b) (Z.land (not32 d) c), (5 * iz + 1) `mod` 16)%Z
    else if (i <? 48)%nat
    then (Z.lxor (Z.lxor b c) d, (3 * iz + 5) `mod` 16)%Z
    else (Z.lxor c (Z.lor b (not32 d)), (7 * iz) `mod` 16)%Z in
  let t := add32 (add32 (add32 f a) (nth i md5_sines 0%Z))
                 (nth (Z.to_nat g) words 0%Z) in
  (d, add32 b (rotl32 t (nth i md5_shifts 0%Z)), b, c).

Definition md5_block (st : md5_state) (words : list Z) : md5_state :=
  let '(a0, b0, c0, d0) := st in
  let '(a, b, c, d) := foldl (md5_step words) st (seq 0 64) in
  (add32 a0 a, add32 b0 b, add32 c0 c, add32 d0 d).

(** Little-endian bytes of a number, and back. *)
Fixpoint le_bytes (n : nat) (x : Z) : list Z :=
  match n with
  | O => []
  | S n' => (x `mod` 256)%Z :: le_bytes n' (x `div` 256)%Z
  end.

Definition le_word (bytes : list Z) : Z :=
  foldr (λ b acc, b + 256 * acc)%Z 0%Z bytes.

(** The message followed by a one bit, zeros up to 56 modulo 64 bytes, and
    the length in bits on 8 bytes. *)
Definition md5_pad (msg : list Z) : list Z :=
  let len := Z.of_nat (length msg) in
  (msg ++ [128%Z] ++ replicate (Z.to_nat ((55 - len) `mod` 64)) 0%Z
   ++ le_bytes 8 ((8 * len) `mod` 2 ^ 64))%list.

(** Cut into groups of [n], at most [fuel] of them. *)
Fixpoint chunks {A} (fuel n : nat) (l : list A) : list (list A) :=
  match fuel, l with
  | O, _ | _, [] => []
  | S fuel', _ => take n l :: chunks fuel' n (drop n l)
  end.

Definition chunks_of {A} (n : nat) (l : list A) : list (list A) :=
  chunks (length l) n l.

Definition md5_digest (msg : list Z) : list Z :=
  let blocks := chunks_of 64 (md5_pad msg) in
  let '(a, b, c, d) :=
    foldl (λ st block, md5_block st (le_word <$> chunks_of 4 block))
          md5_init blocks in
  (le_bytes 4 a ++ le_bytes 4 b ++ le_bytes 4 c ++ le_bytes 4 d)%list.

Fixpoint hex_of_bytes (bytes : list Z) : string :=
  match bytes with
  | [] => ""
  | b :: rest =>
      String (hex_digit (b `div` 16)) (String (hex_digit (b `mod` 16))
        (hex_of_bytes rest))
  end.

(** [s.encode()] of a text of ASCII characters. *)
Fixpoint encode (s : string) : list Z :=
  match s with
  | EmptyString => []
  | String c s' => Z.of_N (N_of_ascii c) :: encode s'
  end.

(** [hashlib.md5(data).hexdigest()]. *)
Definition md5_hexdigest (data : list Z) : string :=
  hex_of_bytes (md5_digest data).

(** ** Canonical hash *)

(** [lambda x: (x['date'], x['start_time'], x['type'])]. *)
Definition date_start_type_key (x : item) : res (string * string * string) :=
  d ← getitem x "date";
  s ← getitem x "start_time";
  t ← getitem x "type";
  Ok (d, s, t).

Definition create_schedule_hash (items : list item) : res string :=
  sorted_items ← sorted tuple3_lt date_start_type_key items;
  let schedule_str := json_dumps sorted_items in
  Ok (md5_hexdigest (encode schedule_str)).

(** Two bookings at the same date, start time and type, in two leagues. *)
Definition game_league_a : item :=
  mk_item "2024-06-01" "18:00" "19:00" "Game" "LeagueA" "TeamX vs TeamY" "VenueY".
Definition game_league_b : item :=
  mk_item "2024-06-01" "18:00" "19:00" "Game" "LeagueB" "TeamP vs TeamQ" "VenueY".

(** ** Vocabulary of the further properties of the diff *)

(** The keys of a collection in list order, repetitions kept. *)
Definition item_keys (items : list item) : list string :=
  omap (λ it, match create_schedule_key it with
              | Ok k => Some k
              | Raise _ => None
              end) items.

(** [e] is the last entry of [items] whose key is [k]. *)
Definition last_with_key (k : string) (e : item) (items : list item) : Prop :=
  ∃ l1 l2, items = (l1 ++ e :: l2)%list ∧ create_schedule_key e = Ok k
           ∧ Forall (λ x, create_schedule_key x ≠ Ok k) l2.

(** No entry of [items] has the key [k]. *)
Definition no_key (k : string) (items : list item) : Prop :=
  Forall (λ x, create_schedule_key x ≠ Ok k) items.

(** Lexicographic comparison of triples, the order [tuple3_lt] decides. *)
Definition triple_compare (a b : string * string * string) : comparison :=
  match pair_compare a.1 b.1 with
  | Eq => String.compare a.2 b.2
  | c => c
  end.

(** The sort keys of a collection in list order, repetitions kept. *)
Definition sort_keys (items : list item) : list (string * string * string) :=
  omap (λ it, match date_start_type_key it with
              | Ok k => Some k
              | Raise _ => None
              end) items.

(** ** The description of a modification in [format_changes_for_email] *)

(** How an f-string writes the result of [d.get(k)]. *)
Definition format_opt (v : option string) : string :=
  match v with
  | Some s => s
  | None => "None"
  end.

Section ChangesDesc.
(** The arrow written between the old and the new value; its characters
    lie beyond the code points a [string] holds, so it is a parameter. *)
Variable arrow : string.

(** Lines 203-209: the list [changes_desc] built for one triple. *)
Definition changes_desc (old_item new_item : item) : list string :=
  let desc0 : list string := [] in
  let desc1 :=
    if bool_decide (get old_item "team" ≠ get new_item "team")
    then (desc0 ++ [("Team: " ++ format_opt (get old_item "team") ++ " "
                    ++ arrow ++ " " ++ format_opt (get new_item "team"))%string])%list
    else desc0 in
  let desc2 :=
    if bool_decide (get old_item "end_time" ≠ get new_item "end_time")
    then (desc1 ++ [("End time: " ++ format_opt (get old_item "end_time") ++ " "
                    ++ arrow ++ " " ++ format_opt (get new_item "end_time"))%string])%list
    else desc1 in
  if bool_decide (get old_item "venue" ≠ get new_item "venue")
  then (desc2 ++ [("Venue: " ++ format_opt (get old_item "venue") ++ " "
                  ++ arrow ++ " " ++ format_opt (get new_item "venue"))%string])%list
  else desc2.
End ChangesDesc.

(** ** [main] of the change detector *)

(** What one run leaves behind: the exit status of the process, the items
    handed to [save_snapshot] and the report written to
    [schedule_changes.json], when there are any. *)
Record run_result : Type := {
  exit_code : Z;
  snapshot_saved : option (list item);
  changes_saved : option ChangeReport
}.

Section DetectorMain.
Variable strptime : string → format → option Z.

(** Lines 243-300 and 303-308, the file system left out: [current_all] is
    what [load_schedule_csv] returned for the current schedule, [snapshot]
    is [None] when the snapshot file does not exist and otherwise what
    [load_schedule_csv] returned for it; [now_current] and [now_snapshot]
    are the instants [datetime.now()] gives to the two calls of
    [filter_next_n_days]; [days] is [DAYS_TO_MONITOR]. An exception that
    reaches the top level ends the process with status 2. *)
Definition detector_main (ord : set_order) (now_current now_snapshot : Z)
    (days : Z) (current_all : list item) (snapshot : option (list item))
  : run_result :=
  if is_nil current_all
  then {| exit_code := 1; snapshot_saved := None; changes_saved := None |}
  else
    let current_items :=
      filter_next_n_days strptime now_current current_all days in
    match snapshot with
    | None =>
        {| exit_code := 0; snapshot_saved := Some current_items;
           changes_saved := None |}
    | Some snapshot_all =>
        let snapshot_items :=
          filter_next_n_days strptime now_snapshot snapshot_all days in
        match detect_changes ord snapshot_items current_items with
        | Ok changes =>
            if has_changes changes
            then {| exit_code := 1; snapshot_saved := Some current_items;
                    changes_saved := Some changes |}
            else {| exit_code := 0; snapshot_saved := None;
                    changes_saved := None |}
        | Raise _ =>
            {| exit_code := 2; snapshot_saved := None; changes_saved := None |}
        end
    end.
End DetectorMain.

(** ** The scraper: [filter_by_venue] and [format_items] *)

(** An item of the master schedule API: a [dict] whose attributes hold
    text, except [game_id] and [team_schedule_type_id], which hold
    integers; each of the two is [None] when the key is absent. *)
Record api_item : Type := {
  api_text : gmap string string;
  api_game_id : option Z;
  api_type_id : option Z
}.

#[global] Instance api_item_eq_dec : EqDecision api_item.
Proof. solve_decision. Defined.

(** [str.lower()] on code points below 256: the letters [A-Z] and the
    capital letters of Latin-1 (192 to 222, the multiplication sign 215
    left out) move up by 32, every other character stays. *)
Definition lower_char (c : ascii) : ascii :=
  let n := Z.of_N (N_of_ascii c) in
  if ((65 <=? n) && (n <=? 90)
      || (192 <=? n) && (n <=? 222) && negb (n =? 215))%Z
  then ascii_of_N (Z.to_N (n + 32)) else c.

Fixpoint lower (s : string) : string :=
  match s with
  | EmptyString => EmptyString
  | String c s' => String (lower_char c) (lower s')
  end.

(** [sub in s] for strings. *)
Fixpoint contains (sub s : string) : bool :=
  String.prefix sub s
  || match s with
     | EmptyString => false
     | String _ s' => contains sub s'
     end.

(** Lines 99-103: whether the item is appended. *)
Definition venue_matches (venue_filter : string) (it : api_item) : bool :=
  match api_text it !! "venue_name" with
  | Some venue_name =>
      negb (is_empty_str venue_name)
      && contains (lower venue_filter) (lower venue_name)
  | None => false
  end.

Fixpoint filter_by_venue_loop (venue_filter : string)
    (items filtered : list api_item) : list api_item :=
  match items with
  | [] => filtered
  | it :: rest =>
      if venue_matches venue_filter it
      then filter_by_venue_loop venue_filter rest (filtered ++ [it])%list
      else filter_by_venue_loop venue_filter rest filtered
  end.

Definition filter_by_venue (items : list api_item) (venue_filter : string)
  : list api_item :=
  filter_by_venue_loop venue_filter items [].

Definition SCHEDULE_TYPES : gmap Z string :=
  list_to_map [(1, "Practice"); (2, "Off-Ice Training"); (3, "Team Meeting");
               (4, "Tournament Game"); (5, "Other"); (6, "Evaluation");
               (7, "Game")]%Z.

(** Lines 117-129: the record built for a game. *)
Definition format_game (it : api_item) : item :=
  let team_a := get_default (api_text it) "team_a_name" "" in
  let team_b := get_default (api_text it) "team_b_name" "" in
  let team_display :=
    if negb (is_empty_str team_a) && negb (is_empty_str team_b)
    then team_a ++ " vs " ++ team_b else "TBA" in
  mk_item (get_default (api_text it) "game_date" "")
          (get_default (api_text it) "game_start_time" "")
          (get_default (api_text it) "game_end_time" "")
          "Game"
          (get_default (api_text it) "league_name" "")
          team_display
          (get_default (api_text it) "venue_name" "").

(** Lines 133-144: the record built for a practice or another ice time. *)
Definition format_other (it : api_item) : item :=
  let type_id := default 1%Z (api_type_id it) in
  let type_name := default "Other" (SCHEDULE_TYPES !! type_id) in
  mk_item (get_default (api_text it) "team_schedule_date" "")
          (get_default (api_text it) "team_schedule_start_time" "")
          (get_default (api_text it) "team_schedule_end_time" "")
          type_name
          (get_default (api_text it) "league_name" "")
          (get_default (api_text it) "team_name" "")
          (get_default (api_text it) "venue_name" "").

(** Lines 111-145: the loop that fills [games] and [non_games]. *)
Fixpoint split_games (items : list api_item) (games non_games : list item)
  : list item * list item :=
  match items with
  | [] => (games, non_games)
  | it :: rest =>
      if bool_decide (is_Some (api_game_id it))
      then split_games rest (games ++ [format_game it])%list non_games
      else split_games rest games (non_games ++ [format_other it])%list
  end.

(** [{(g['date'], g['start_time']) for g in games}]. *)
Fixpoint slots_of (games : list item) : res (gset (string * string)) :=
  match games with
  | [] => Ok ∅
  | g :: rest =>
      slot ← date_start_key g;
      slots ← slots_of rest;
      Ok ({[slot]} ∪ slots)
  end.

(** [[ng for ng in non_games if (ng['date'], ng['start_time']) not in
    game_slots]]. *)
Fixpoint without_slots (game_slots : gset (string * string))
    (non_games : list item) : res (list item) :=
  match non_games with
  | [] => Ok []
  | ng :: rest =>
      slot ← date_start_key ng;
      kept ← without_slots game_slots rest;
      Ok (if bool_decide (slot ∉ game_slots) then ng :: kept else kept)
  end.

(** [format_items(items)]; [list.sort] is stable, as [sorted] is. *)
Definition format_items (items : list api_item) : res (list item) :=
  let '(games, non_games) := split_games items [] [] in
  game_slots ← slots_of games;
  non_games_filtered ← without_slots game_slots non_games;
  let all_items := (games ++ non_games_filtered)%list in
  sorted tuple2_lt date_start_key all_items.

(** The fields of a formatted record. *)
Definition schedule_fields : gset string :=
  {["date"; "start_time"; "end_time"; "type"; "league"; "team"; "venue"]}.

(** The slot of a formatted record, absent fields read as empty. *)
Definition slot (x : item) : string * string :=
  (get_default x "date" "", get_default x "start_time" "").

(** Items of the API used in the examples. *)
Definition api_game : api_item :=
  {| api_text := <["game_date" := "2024-06-01"]> (<["game_start_time" := "18:00"]>
       (<["game_end_time" := "19:00"]> (<["league_name" := "U11"]>
       (<["team_a_name" := "Rams"]> (<["team_b_name" := "Hawks"]>
       (<["venue_name" := "Amherst Stadium"]> ∅))))));
     api_game_id := Some 42%Z; api_type_id := None |}.

Definition api_game_shadow : api_item :=
  {| api_text := <["team_schedule_date" := "2024-06-01"]>
       (<["team_schedule_start_time" := "18:00"]>
       (<["team_schedule_end_time" := "19:00"]> (<["league_name" := "U11"]>
       (<["team_name" := "Rams"]> (<["venue_name" := "AMHERST STADIUM"]> ∅)))));
     api_game_id := None; api_type_id := Some 7%Z |}.

Definition api_practice : api_item :=
  {| api_text := <["team_schedule_date" := "2024-05-30"]>
       (<["team_schedule_start_time" := "09:00"]>
       (<["team_schedule_end_time" := "10:00"]> (<["league_name" := "U13"]>
       (<["team_name" := "Owls"]> (<["venue_name" := "Amherst Stadium - Rink B"]> ∅)))));
     api_game_id := None; api_type_id := Some 1%Z |}.

(** ** The list of recipients *)

(** [c.isspace()] on code points below 256. *)
Definition is_space (c : ascii) : bool :=
  let n := Z.of_N (N_of_ascii c) in
  ((9 <=? n) && (n <=? 13) || (28 <=? n) && (n <=? 32)
   || (n =? 133) || (n =? 160))%Z.

Fixpoint lstrip (s : string) : string :=
  match s with
  | EmptyString => EmptyString
  | String c s' => if is_space c then lstrip s' else s
  end.

Fixpoint rstrip (s : string) : string :=
  match s with
  | EmptyString => EmptyString
  | String c s' =>
      let r := rstrip s' in
      if is_empty_str r && is_space c then EmptyString else String c r
  end.

(** [s.strip()]. *)
Definition strip (s : string) : string := rstrip (lstrip s).

(** [s.split(sep)] for a one-character [sep]. *)
Fixpoint split_char (sep : ascii) (s : string) : list string :=
  match s with
  | EmptyString => [EmptyString]
  | String c s' =>
      if Ascii.eqb c sep then EmptyString :: split_char sep s'
      else match split_char sep s' with
           | p :: ps => String c p :: ps
           | [] => [String c EmptyString]
           end
  end.

(** [[r.strip() for r in recipients if r.strip()]]. *)
Fixpoint strip_nonblank (parts : list string) : list string :=
  match parts with
  | [] => []
  | r :: rest =>
      if negb (is_empty_str (strip r)) then strip r :: strip_nonblank rest
      else strip_nonblank rest
  end.

(** The change notifier's recipients: [RECIPIENT_EMAILS], read with the
    default [''], is split at commas and the blank fields are left out. *)
Definition change_notifier_recipients (env_value : option string)
  : list string :=
  strip_nonblank (split_char "," (default "" env_value)).

(** The weekly notifier's recipients: the default is an address, and every
    field is kept, stripped. *)
Definition weekly_notifier_recipients (env_value : option string)
  : list string :=
  strip <$> split_char "," (default "canteen@example.com" env_value).

(* ================================================================== *)
(** * Properties *)
(* ================================================================== *)

(** ** The result monad *)

Lemma bind_Ok_inv {A B} (m : res A) (f : A → res B) (b : B) :
  m ≫= f = Ok b → ∃ a, m = Ok a ∧ f a = Ok b.
Proof. destruct m as [a|e]; simpl; [eauto | discriminate]. Qed.

Lemma getitem_Ok {V} (d : gmap string V) k v :
  getitem d k = Ok v ↔ d !! k = Some v.
Proof. unfold getitem. destruct (d !! k); split; congruence. Qed.

Ltac inv_bind H :=
  repeat match type of H with
  | _ ≫= _ = Ok _ =>
      let a := fresh "a" in let Ha := fresh "Ha" in
      apply bind_Ok_inv in H as (a & Ha & H)
  end.

(** ** Identity key *)

Lemma create_schedule_key_fields (it : item) d s t l :
  it !! "date" = Some d → it !! "start_time" = Some s →
  it !! "type" = Some t → it !! "league" = Some l →
  create_schedule_key it = Ok (d ++ "_" ++ s ++ "_" ++ t ++ "_" ++ l).
Proof.
  intros Hd Hs Ht Hl. unfold create_schedule_key, getitem.
  rewrite Hd, Hs, Ht, Hl. reflexivity.
Qed.

Lemma create_schedule_key_Ok (it : item) :
  is_Ok (create_schedule_key it) ↔ has_identity it.
Proof.
  unfold has_identity, is_Ok, create_schedule_key, getitem. split.
  - intros [k Hk].
    destruct (it !! "date"), (it !! "start_time"), (it !! "type"),
      (it !! "league"); simpl in Hk; try discriminate; eauto 10.
  - intros ([d Hd] & [s Hs] & [t Ht] & [l Hl]).
    rewrite Hd, Hs, Ht, Hl. simpl. eauto.
Qed.

(** ** Iteration orders *)

Lemma elem_of_iter ord (s : gset string) k : k ∈ iter ord s ↔ k ∈ s.
Proof. rewrite (iter_perm ord s). apply elem_of_elements. Qed.

Lemma NoDup_iter ord (s : gset string) : NoDup (iter ord s).
Proof. rewrite (iter_perm ord s). apply NoDup_elements. Qed.

Lemma iter_empty ord : iter ord ∅ = [].
Proof.
  apply Permutation_nil_r. rewrite (iter_perm ord ∅), elements_empty. done.
Qed.

Lemma list_to_set_iter ord (s : gset string) : list_to_set (iter ord s) = s.
Proof.
  apply set_eq. intros k. rewrite elem_of_list_to_set. apply elem_of_iter.
Qed.

Lemma iter_nil_iff ord (s : gset string) : iter ord s = [] ↔ s = ∅.
Proof.
  split.
  - intros H. rewrite <- (list_to_set_iter ord s), H. done.
  - intros ->. apply iter_empty.
Qed.

(** ** The key dictionary *)

Lemma entry_under_key k items e :
  entry_under k items = Some e → create_schedule_key e = Ok k ∧ e ∈ items.
Proof.
  induction items as [|it rest IH]; simpl; [discriminate|].
  destruct (entry_under k rest) as [e'|].
  - intros [= <-]. destruct IH as [? ?]; [done|]. split; [done|]. by right.
  - case_bool_decide as Hk; [|discriminate].
    intros [= <-]. split; [done|]. by left.
Qed.

Lemma elem_of_keys_of k items :
  k ∈ keys_of items ↔ is_Some (entry_under k items).
Proof.
  induction items as [|it rest IH]; simpl.
  - rewrite elem_of_empty. split; [done | by intros [? ?]].
  - assert (k ∈ keys_of (it :: rest) ↔
            create_schedule_key it = Ok k ∨ k ∈ keys_of rest) as Hcons.
    { simpl. destruct (create_schedule_key it) as [k'|e].
      - rewrite elem_of_union, elem_of_singleton.
        split; (intros [?|?]; [left; congruence | by right]).
      - split; [by right | by intros [?|?]]. }
    simpl in Hcons. rewrite Hcons, IH.
    destruct (entry_under k rest) as [e|].
    + split; eauto.
    + case_bool_decide as Hk.
      * split; eauto.
      * split; [intros [?|[? ?]]; done | by intros [? ?]].
Qed.

Lemma key_dict_lookup items : ∀ acc m,
  key_dict items acc = Ok m →
  ∀ k, m !! k = match entry_under k items with
                | Some e => Some e
                | None => acc !! k
                end.
Proof.
  induction items as [|it rest IH]; simpl; intros acc m H k.
  - by injection H as ->.
  - inv_bind H. rewrite (IH _ _ H k).
    destruct (entry_under k rest); [done|].
    rewrite Ha. case_bool_decide as Hk.
    + injection Hk as ->. by rewrite lookup_insert_eq.
    + rewrite lookup_insert_ne; [done|]. congruence.
Qed.

Lemma key_dict_Ok items : ∀ acc,
  is_Ok (key_dict items acc) ↔ Forall has_identity items.
Proof.
  induction items as [|it rest IH]; simpl; intros acc.
  - split; [constructor | by eexists].
  - rewrite Forall_cons, <- create_schedule_key_Ok. split.
    + intros [m H]. inv_bind H. split; [by eexists|].
      apply (IH (<[a := it]> acc)). by eexists.
    + intros [[k Hk] Hrest]. rewrite Hk. simpl. by apply IH.
Qed.

Lemma key_dict_empty_lookup items m k :
  key_dict items ∅ = Ok m → m !! k = entry_under k items.
Proof.
  intros H. rewrite (key_dict_lookup _ _ _ H k), lookup_empty.
  by destruct (entry_under k items).
Qed.

Lemma key_dict_dom items m :
  key_dict items ∅ = Ok m → dom m = keys_of items.
Proof.
  intros H. apply set_eq. intros k.
  by rewrite elem_of_dom, elem_of_keys_of, (key_dict_empty_lookup _ _ _ H).
Qed.

Lemma key_dict_value_key items m k e :
  key_dict items ∅ = Ok m → m !! k = Some e → create_schedule_key e = Ok k.
Proof.
  intros H. rewrite (key_dict_empty_lookup _ _ _ H).
  intros He. by apply entry_under_key in He as [? _].
Qed.

(** ** The comprehensions and the modification loop *)

Lemma lookup_all_Ok (d : gmap string item) keys :
  Forall (λ k, is_Some (d !! k)) keys →
  ∃ vs, lookup_all d keys = Ok vs ∧ Forall2 (λ k v, d !! k = Some v) keys vs.
Proof.
  induction 1 as [|k rest [v Hv] _ (vs & Hvs & IH)]; simpl.
  - eexists. split; [done | constructor].
  - unfold getitem. rewrite Hv. simpl. rewrite Hvs. simpl.
    eexists. split; [done|]. by constructor.
Qed.

Lemma lookup_all_inv (d : gmap string item) keys vs :
  lookup_all d keys = Ok vs → Forall2 (λ k v, d !! k = Some v) keys vs.
Proof.
  revert vs. induction keys as [|k rest IH]; simpl; intros vs H.
  - injection H as <-. constructor.
  - inv_bind H. injection H as <-. apply getitem_Ok in Ha.
    constructor; [done | by apply IH].
Qed.

Lemma keys_of_values (keys : list string) (vs : list item) :
  Forall2 (λ k v, create_schedule_key v = Ok k) keys vs →
  keys_of vs = list_to_set keys.
Proof. induction 1 as [|k v ks vs Hk _ IH]; simpl; [done|]. by rewrite Hk, IH. Qed.

Lemma modified_loop_Ok old_keys new_keys keys : ∀ acc,
  Forall (λ k, is_Some (old_keys !! k) ∧ is_Some (new_keys !! k)) keys →
  modified_loop old_keys new_keys keys acc
  = Ok (acc ++ omap (triple_of old_keys new_keys) keys)%list.
Proof.
  induction keys as [|k rest IH]; simpl; intros acc Hall.
  - by rewrite app_nil_r.
  - apply Forall_cons in Hall as [[[o Ho] [n Hn]] Hrest].
    unfold getitem, triple_of. rewrite Ho, Hn. simpl.
    destruct (details_differ o n).
    + rewrite IH by done. by rewrite <- app_assoc.
    + by apply IH.
Qed.

Lemma modified_loop_inv old_keys new_keys keys : ∀ acc ms,
  modified_loop old_keys new_keys keys acc = Ok ms →
  ms = (acc ++ omap (triple_of old_keys new_keys) keys)%list.
Proof.
  induction keys as [|k rest IH]; simpl; intros acc ms H.
  - injection H as <-. by rewrite app_nil_r.
  - inv_bind H. apply getitem_Ok in Ha, Ha0.
    unfold triple_of. rewrite Ha, Ha0.
    destruct (details_differ a a0); apply IH in H; [|done].
    by rewrite <- app_assoc in H.
Qed.

Lemma elem_of_triples old_keys new_keys (keys : list string) k o n :
  (k, o, n) ∈ omap (triple_of old_keys new_keys) keys ↔
  k ∈ keys ∧ old_keys !! k = Some o ∧ new_keys !! k = Some n
  ∧ details_differ o n = true.
Proof.
  rewrite list_elem_of_omap. unfold triple_of. split.
  - intros (k' & Hin & H).
    destruct (old_keys !! k') as [o'|] eqn:Ho; [|done].
    destruct (new_keys !! k') as [n'|] eqn:Hn; [|done].
    destruct (details_differ o' n') eqn:Hd; [|done].
    by injection H as -> -> ->.
  - intros (Hin & Ho & Hn & Hd). exists k. by rewrite Ho, Hn, Hd.
Qed.

(** ** The shape of every report *)

Lemma detect_changes_inv ord old_items new_items r :
  detect_changes ord old_items new_items = Ok r →
  ∃ old_keys new_keys,
    key_dict old_items ∅ = Ok old_keys ∧ key_dict new_items ∅ = Ok new_keys
    ∧ report_of ord old_keys new_keys r.
Proof.
  unfold detect_changes. intros H.
  apply bind_Ok_inv in H as (old_keys & Hold & H).
  apply bind_Ok_inv in H as (new_keys & Hnew & H).
  cbv zeta in H.
  apply bind_Ok_inv in H as (ms & Hms & H).
  apply bind_Ok_inv in H as (adds & Hadds & H).
  apply bind_Ok_inv in H as (rems & Hrems & H).
  injection H as <-.
  exists old_keys, new_keys. split; [done|]. split; [done|].
  apply modified_loop_inv in Hms. simpl in Hms.
  constructor; simpl; eauto using lookup_all_inv.
Qed.

Lemma detect_changes_total ord old_items new_items :
  Forall has_identity old_items → Forall has_identity new_items →
  is_Ok (detect_changes ord old_items new_items).
Proof.
  intros Hold Hnew.
  apply (key_dict_Ok _ ∅) in Hold as [old_keys Hold].
  apply (key_dict_Ok _ ∅) in Hnew as [new_keys Hnew].
  unfold detect_changes. rewrite Hold, Hnew. simpl.
  rewrite modified_loop_Ok; simpl.
  2:{ apply Forall_forall. intros k.
      rewrite elem_of_iter, elem_of_intersection, !elem_of_dom. done. }
  destruct (lookup_all_Ok new_keys (iter ord (dom new_keys ∖ dom old_keys)))
    as (adds & -> & _).
  { apply Forall_forall. intros k.
    rewrite elem_of_iter, elem_of_difference, elem_of_dom. tauto. }
  destruct (lookup_all_Ok old_keys (iter ord (dom old_keys ∖ dom new_keys)))
    as (rems & -> & _).
  { apply Forall_forall. intros k.
    rewrite elem_of_iter, elem_of_difference, elem_of_dom. tauto. }
  simpl. by eexists.
Qed.

Lemma detect_changes_Ok_identity ord old_items new_items :
  is_Ok (detect_changes ord old_items new_items) ↔
  Forall has_identity old_items ∧ Forall has_identity new_items.
Proof.
  split.
  - intros [r H]. apply detect_changes_inv in H as (o & n & Ho & Hn & _).
    split; apply (key_dict_Ok _ ∅); by eexists.
  - intros [? ?]. by apply detect_changes_total.
Qed.

(** The key sets of the three parts of a report. *)
Lemma report_key_sets ord old_items new_items r :
  detect_changes ord old_items new_items = Ok r →
  keys_of (added r) = keys_of new_items ∖ keys_of old_items
  ∧ keys_of (removed r) = keys_of old_items ∖ keys_of new_items
  ∧ ∀ k, k ∈ modified_keys_of r ↔
         ∃ o n, entry_under k old_items = Some o
                ∧ entry_under k new_items = Some n
                ∧ details_differ o n = true.
Proof.
  intros H. apply detect_changes_inv in H as (om & nm & Ho & Hn & [Ha Hr Hm _]).
  rewrite <- (key_dict_dom _ _ Ho), <- (key_dict_dom _ _ Hn).
  split; [|split].
  - rewrite <- (list_to_set_iter ord (dom nm ∖ dom om)).
    apply keys_of_values. eapply Forall2_impl; [exact Ha|].
    intros k v. apply (key_dict_value_key _ _ _ _ Hn).
  - rewrite <- (list_to_set_iter ord (dom om ∖ dom nm)).
    apply keys_of_values. eapply Forall2_impl; [exact Hr|].
    intros k v. apply (key_dict_value_key _ _ _ _ Ho).
  - intros k. unfold modified_keys_of. rewrite elem_of_list_to_set, Hm.
    rewrite list_elem_of_fmap. split.
    + intros ([[k' o] n] & -> & Hin). simpl.
      apply elem_of_triples in Hin as (_ & Hko & Hkn & Hd).
      exists o, n. rewrite <- (key_dict_empty_lookup _ _ _ Ho).
      by rewrite <- (key_dict_empty_lookup _ _ _ Hn).
    + intros (o & n & Hko & Hkn & Hd).
      rewrite <- (key_dict_empty_lookup _ _ _ Ho) in Hko.
      rewrite <- (key_dict_empty_lookup _ _ _ Hn) in Hkn.
      exists (k, o, n). split; [done|]. apply elem_of_triples.
      split; [|done]. rewrite elem_of_iter, elem_of_intersection, !elem_of_dom.
      by rewrite Hko, Hkn.
Qed.

(** ** C5: the identity key of an item lacking a field *)

(** C5, as stated, fails: on an item without [date] the key derivation
    raises [KeyError] instead of producing the key with an empty component. *)
Lemma create_schedule_key_missing_date_raises :
  no_date_item !! "date" = None
  ∧ create_schedule_key no_date_item = Raise (KeyError "date")
  ∧ create_schedule_key no_date_item ≠ Ok (key_with_defaults no_date_item).
Proof. vm_compute. repeat split. discriminate. Qed.

(** C5 (amended): [create_schedule_key] succeeds exactly on the items that
    carry all four identity fields, and then returns
    [date_start_time_type_league]; on an item lacking one of them it raises
    [KeyError] for the first absent field in the order date, start_time,
    type, league. *)
Theorem create_schedule_key_total_iff_identity (it : item) :
  (is_Ok (create_schedule_key it) ↔ has_identity it)
  ∧ (∀ d s t l,
       it !! "date" = Some d → it !! "start_time" = Some s →
       it !! "type" = Some t → it !! "league" = Some l →
       create_schedule_key it = Ok (d ++ "_" ++ s ++ "_" ++ t ++ "_" ++ l))
  ∧ (¬ has_identity it →
       ∃ f before,
         (before ++ [f])%list `prefix_of` ["date"; "start_time"; "type"; "league"]
         ∧ Forall (λ g, is_Some (it !! g)) before
         ∧ it !! f = None
         ∧ create_schedule_key it = Raise (KeyError f)).
Proof.
  split; [apply create_schedule_key_Ok|].
  split; [apply create_schedule_key_fields|].
  intros Hno. unfold has_identity in Hno.
  unfold create_schedule_key, getitem.
  destruct (it !! "date") as [d|] eqn:Hd.
  2:{ exists "date", []. repeat split; [|done..]. by eexists [_; _; _]. }
  destruct (it !! "start_time") as [s|] eqn:Hs.
  2:{ exists "start_time", ["date"]. repeat split; [|by repeat constructor|done..].
      by eexists [_; _]. }
  destruct (it !! "type") as [t|] eqn:Ht.
  2:{ exists "type", ["date"; "start_time"].
      repeat split; [|by repeat constructor|done..]. by eexists [_]. }
  destruct (it !! "league") as [l|] eqn:Hl.
  2:{ exists "league", ["date"; "start_time"; "type"].
      repeat split; [|by repeat constructor|done..]. by eexists []. }
  exfalso. apply Hno. eauto 10.
Qed.

Lemma create_schedule_key_total_iff_identity_witness :
  create_schedule_key game_june1 = Ok "2024-06-01_18:00_Game_LeagueA"
  ∧ ∃ f, create_schedule_key no_date_item = Raise (KeyError f).
Proof.
  destruct (create_schedule_key_total_iff_identity game_june1) as (_ & Hok & _).
  destruct (create_schedule_key_total_iff_identity no_date_item) as (_ & _ & Hno).
  split.
  - apply (Hok "2024-06-01" "18:00" "Game" "LeagueA"); vm_compute; reflexivity.
  - destruct Hno as (f & _ & _ & _ & _ & Hf).
    + intros (Hd & _). vm_compute in Hd. destruct Hd as [? Hd]. discriminate Hd.
    + exists f. exact Hf.
Defined.

(** ** C1: the report partitions the keys *)

Lemma elem_of_unchanged_keys old_items new_items k :
  k ∈ unchanged_keys old_items new_items ↔
  ∃ o n, entry_under k old_items = Some o ∧ entry_under k new_items = Some n
         ∧ details_differ o n = false.
Proof.
  unfold unchanged_keys, agree_under.
  rewrite elem_of_filter, elem_of_intersection, !elem_of_keys_of. split.
  - intros [Hagree [[o Ho] [n Hn]]]. rewrite Ho, Hn in Hagree.
    exists o, n. by destruct (details_differ o n).
  - intros (o & n & Ho & Hn & Hd). rewrite Ho, Hn, Hd. eauto.
Qed.

(** C1: for every report that [detect_changes] produces, the key sets of
    [added], of [removed], of the modification triples and of the unchanged
    common keys are pairwise disjoint, and together they are exactly
    [keys(old) ∪ keys(new)]: every key falls into exactly one category. *)
Theorem detect_changes_partitions_keys ord old_items new_items r :
  detect_changes ord old_items new_items = Ok r →
  let A := keys_of (added r) in
  let R := keys_of (removed r) in
  let M := modified_keys_of r in
  let U := unchanged_keys old_items new_items in
  A ## R ∧ A ## M ∧ A ## U ∧ R ## M ∧ R ## U ∧ M ## U
  ∧ A ∪ R ∪ M ∪ U = keys_of old_items ∪ keys_of new_items.
Proof.
  intros H. apply report_key_sets in H as (HA & HR & HM).
  cbv zeta. rewrite HA, HR.
  assert (∀ k, k ∈ modified_keys_of r →
               k ∈ keys_of old_items ∧ k ∈ keys_of new_items) as HMsub.
  { intros k (o & n & Ho & Hn & _)%HM. rewrite !elem_of_keys_of, Ho, Hn. eauto. }
  assert (∀ k, k ∈ unchanged_keys old_items new_items →
               k ∈ keys_of old_items ∧ k ∈ keys_of new_items) as HUsub.
  { intros k (o & n & Ho & Hn & _)%elem_of_unchanged_keys.
    rewrite !elem_of_keys_of, Ho, Hn. eauto. }
  assert (∀ k, k ∈ modified_keys_of r →
               k ∈ unchanged_keys old_items new_items → False) as HMU.
  { intros k (o & n & Ho & Hn & Hd)%HM (o' & n' & Ho' & Hn' & Hd')%elem_of_unchanged_keys.
    congruence. }
  assert (∀ k, k ∈ keys_of old_items → k ∈ keys_of new_items →
               k ∈ modified_keys_of r ∨ k ∈ unchanged_keys old_items new_items)
    as Hcommon.
  { intros k [o Ho]%elem_of_keys_of [n Hn]%elem_of_keys_of.
    destruct (details_differ o n) eqn:Hd.
    - left. apply HM. eauto.
    - right. apply elem_of_unchanged_keys. eauto. }
  repeat split; try (intros k; specialize (HMsub k); specialize (HUsub k);
    specialize (HMU k); rewrite ?elem_of_difference; tauto).
  apply set_eq. intros k. specialize (HMsub k). specialize (HUsub k).
  specialize (Hcommon k).
  rewrite !elem_of_union, !elem_of_difference.
  destruct (decide (k ∈ keys_of old_items)), (decide (k ∈ keys_of new_items));
    tauto.
Qed.

Lemma detect_changes_partitions_keys_witness :
  ∃ r, detect_changes ascending_order
         [game_june1; practice_june3] [game_june1_moved; practice_june2] = Ok r
       ∧ keys_of (added r) ## keys_of (removed r)
       ∧ keys_of (added r) ∪ keys_of (removed r) ∪ modified_keys_of r
           ∪ unchanged_keys [game_june1; practice_june3]
                            [game_june1_moved; practice_june2]
         = keys_of [game_june1; practice_june3]
             ∪ keys_of [game_june1_moved; practice_june2].
Proof.
  eexists {| added := [practice_june2]; removed := [practice_june3];
             modified := [("2024-06-01_18:00_Game_LeagueA",
                           game_june1, game_june1_moved)];
             has_changes := true |}.
  assert (detect_changes ascending_order
            [game_june1; practice_june3] [game_june1_moved; practice_june2]
          = Ok {| added := [practice_june2]; removed := [practice_june3];
                  modified := [("2024-06-01_18:00_Game_LeagueA",
                                game_june1, game_june1_moved)];
                  has_changes := true |}) as Hrun by (vm_compute; reflexivity).
  split; [exact Hrun|].
  destruct (detect_changes_partitions_keys _ _ _ _ Hrun)
    as (HAR & _ & _ & _ & _ & _ & Hcover).
  split; [exact HAR | exact Hcover].
Defined.

(** ** C2: which entries are reported as modified *)



(** ** C3: comparing a collection with itself; the [has_changes] flag *)


Lemma size_iter ord (s : gset string) : length (iter ord s) = size s.
Proof. by rewrite (iter_perm ord s). Qed.


Lemma has_changes_iff ord old_items new_items r :
  detect_changes ord old_items new_items = Ok r →
  has_changes r = true ↔ added r ≠ [] ∨ removed r ≠ [] ∨ modified r ≠ [].
Proof.
  intros H. apply detect_changes_inv in H as (om & nm & _ & _ & [Ha Hr _ Hh]).
  apply Forall2_length in Ha, Hr. rewrite size_iter in Ha, Hr.
  rewrite Hh, Ha, Hr, !orb_true_iff, !Nat.ltb_lt.
  assert (∀ {T} (l : list T), (0 < length l)%nat ↔ l ≠ []) as Hlen.
  { intros T [|x l]; simpl; split; try done; lia. }
  rewrite !Hlen. tauto.
Qed.




(** ** C8: added and removed are mirror images *)

(** C8: whatever the iteration orders, [detect_changes(A, B)] returns a
    report exactly when [detect_changes(B, A)] does, and then the key set
    of the first report's [added] is the key set of the second's
    [removed]. *)
Theorem added_keys_eq_swapped_removed_keys ord1 ord2 A B :
  (is_Ok (detect_changes ord1 A B) ↔ is_Ok (detect_changes ord2 B A))
  ∧ ∀ r1 r2,
      detect_changes ord1 A B = Ok r1 →
      detect_changes ord2 B A = Ok r2 →
      keys_of (added r1) = keys_of (removed r2).
Proof.
  split.
  - rewrite !detect_changes_Ok_identity. tauto.
  - intros r1 r2 (H1 & _ & _)%report_key_sets (_ & H2 & _)%report_key_sets.
    by rewrite H1, H2.
Qed.

Lemma added_keys_eq_swapped_removed_keys_witness :
  keys_of [practice_june2] = keys_of [practice_june2].
Proof.
  refine (proj2 (added_keys_eq_swapped_removed_keys
            ascending_order descending_order
            [game_june1] [game_june1; practice_june2])
            {| added := [practice_june2]; removed := [];
               modified := []; has_changes := true |}
            {| added := []; removed := [practice_june2];
               modified := []; has_changes := true |} _ _);
    vm_compute; reflexivity.
Defined.

(** ** Order of tuples of strings *)

Lemma str_compare_lt_trans a b c :
  String.compare a b = Lt → String.compare b c = Lt → String.compare a c = Lt.
Proof. exact (@StrictOrder_Transitive _ _ OrdersEx.String_as_OT.lt_strorder a b c). Qed.

Lemma str_compare_refl a : String.compare a a = Eq.
Proof.
  pose proof (String.compare_antisym a a) as H.
  destruct (String.compare a a); simpl in H; congruence.
Qed.

Lemma str_eqb_compare a b : String.eqb a b = true ↔ String.compare a b = Eq.
Proof.
  rewrite String.eqb_eq. split.
  - intros ->. apply str_compare_refl.
  - apply String.compare_eq_iff.
Qed.

Lemma tuple2_lt_compare a b : tuple2_lt a b = true ↔ pair_compare a b = Lt.
Proof.
  unfold tuple2_lt, pair_compare, String.ltb.
  destruct (String.eqb a.1 b.1) eqn:He.
  - apply str_eqb_compare in He. rewrite He.
    destruct (String.compare a.2 b.2); split; congruence.
  - destruct (String.compare a.1 b.1) eqn:Hc; try (split; congruence).
    apply str_eqb_compare in Hc. congruence.
Qed.

Lemma pair_compare_antisym a b : pair_compare a b = CompOpp (pair_compare b a).
Proof.
  unfold pair_compare.
  rewrite (String.compare_antisym a.1 b.1), (String.compare_antisym a.2 b.2).
  by destruct (String.compare b.1 a.1).
Qed.

Lemma pair_compare_eq a b : pair_compare a b = Eq → a = b.
Proof.
  unfold pair_compare. destruct a as [a1 a2], b as [b1 b2]. simpl.
  destruct (String.compare a1 b1) eqn:H1; try discriminate.
  intros H2. apply String.compare_eq_iff in H1, H2. congruence.
Qed.

Lemma pair_compare_lt_trans a b c :
  pair_compare a b = Lt → pair_compare b c = Lt → pair_compare a c = Lt.
Proof.
  unfold pair_compare. destruct a as [a1 a2], b as [b1 b2], c as [c1 c2]. simpl.
  destruct (String.compare a1 b1) eqn:Hab; try discriminate;
    destruct (String.compare b1 c1) eqn:Hbc; try discriminate; intros H1 H2.
  - apply String.compare_eq_iff in Hab, Hbc. subst.
    rewrite str_compare_refl. eauto using str_compare_lt_trans.
  - apply String.compare_eq_iff in Hab. subst. by rewrite Hbc.
  - apply String.compare_eq_iff in Hbc. subst. by rewrite Hab.
  - by rewrite (str_compare_lt_trans _ _ _ Hab Hbc).
Qed.

Lemma tuple2_lt_asym a b : tuple2_lt a b = true → tuple2_lt b a = false.
Proof.
  rewrite tuple2_lt_compare. intros H. apply not_true_is_false.
  rewrite tuple2_lt_compare, pair_compare_antisym, H. discriminate.
Qed.

Lemma tuple2_le_trans a b c :
  tuple2_lt b a = false → tuple2_lt c b = false → tuple2_lt c a = false.
Proof.
  intros H1 H2. apply not_true_is_false. intros H3.
  apply not_true_iff_false in H1, H2.
  rewrite tuple2_lt_compare in H1, H2, H3.
  destruct (pair_compare b a) eqn:Hba; [| done |].
  - apply pair_compare_eq in Hba. congruence.
  - destruct (pair_compare c b) eqn:Hcb; [| done |].
    + apply pair_compare_eq in Hcb. congruence.
    + rewrite pair_compare_antisym in Hba, Hcb.
      destruct (pair_compare a b) eqn:Hab; try discriminate.
      destruct (pair_compare b c) eqn:Hbc; try discriminate.
      pose proof (pair_compare_lt_trans _ _ _ Hab Hbc) as Hac.
      rewrite pair_compare_antisym, Hac in H3. discriminate.
Qed.

(** [tuple2_lt b a = false] is the lexicographic [a ≤ b]. *)
Lemma tuple2_le_lexicographic a b :
  tuple2_lt b a = false ↔
  String.ltb a.1 b.1 = true ∨ (a.1 = b.1 ∧ String.leb a.2 b.2 = true).
Proof.
  unfold tuple2_lt, String.ltb, String.leb.
  rewrite (String.compare_antisym a.1 b.1), (String.compare_antisym a.2 b.2).
  destruct (String.eqb b.1 a.1) eqn:He.
  - apply String.eqb_eq in He. rewrite He, str_compare_refl. simpl.
    destruct (String.compare b.2 a.2); simpl; split; try done; try tauto;
      intros [?|[? ?]]; done.
  - assert (a.1 ≠ b.1) as Hne by (apply String.eqb_neq in He; congruence).
    destruct (String.compare b.1 a.1) eqn:Hc; simpl; split; try done;
      try tauto; try (intros [?|[? ?]]; done).
    apply String.compare_eq_iff in Hc. congruence.
Qed.

(** ** [sorted] returns the sorted permutation *)

Section SortedFacts.
Context {K : Type} (lt : K → K → bool).
Hypothesis lt_asym : ∀ a b, lt a b = true → lt b a = false.
Hypothesis le_trans :
  ∀ a b c, lt b a = false → lt c b = false → lt c a = false.

Lemma insert_keyed_perm x l : insert_keyed lt x l ≡ₚ x :: l.
Proof.
  induction l as [|y l IH]; simpl; [done|].
  destruct (lt y.1 x.1); [|done]. rewrite IH. apply Permutation_swap.
Qed.

Lemma sort_keyed_perm l : sort_keyed lt l ≡ₚ l.
Proof.
  induction l as [|x l IH]; simpl; [done|].
  by rewrite insert_keyed_perm, IH.
Qed.

Lemma insert_keyed_sorted x l :
  StronglySorted (λ x y, lt y.1 x.1 = false) l →
  StronglySorted (λ x y, lt y.1 x.1 = false) (insert_keyed lt x l).
Proof.
  induction 1 as [|y l Hl IH Hy]; simpl.
  - repeat constructor.
  - destruct (lt y.1 x.1) eqn:Hyx.
    + constructor; [done|]. rewrite insert_keyed_perm.
      constructor; [|done]. by apply lt_asym.
    + constructor; [by constructor|]. constructor; [done|].
      eapply Forall_impl; [exact Hy|]. intros z Hz. simpl in *.
      by apply (le_trans _ y.1).
Qed.

Lemma sort_keyed_sorted l :
  StronglySorted (λ x y, lt y.1 x.1 = false) (sort_keyed lt l).
Proof.
  induction l as [|x l IH]; simpl; [constructor|].
  by apply insert_keyed_sorted.
Qed.
End SortedFacts.

Lemma decorate_inv {K} (key : item → res K) l kl :
  decorate key l = Ok kl →
  snd <$> kl = l ∧ Forall (λ p, key p.2 = Ok p.1) kl.
Proof.
  revert kl. induction l as [|x l IH]; simpl; intros kl H.
  - injection H as <-. by split.
  - inv_bind H. injection H as <-. destruct (IH _ Ha0) as [<- ?].
    split; [done|]. by constructor.
Qed.

Lemma decorate_Ok {K} (key : item → res K) l :
  Forall (λ x, is_Ok (key x)) l → is_Ok (decorate key l).
Proof.
  induction 1 as [|x l [k Hk] _ [kl IH]]; simpl; [by eexists|].
  rewrite Hk. simpl. rewrite IH. simpl. by eexists.
Qed.

Lemma sorted_date_start l :
  Forall (λ x, is_Ok (date_start_key x)) l →
  ∃ rows, sorted tuple2_lt date_start_key l = Ok rows
          ∧ rows ≡ₚ l ∧ StronglySorted date_start_le rows.
Proof.
  intros [kl Hkl]%decorate_Ok. unfold sorted. rewrite Hkl. simpl.
  eexists. split; [done|]. apply decorate_inv in Hkl as [<- Hkeys]. split.
  - by rewrite sort_keyed_perm.
  - pose proof (sort_keyed_sorted tuple2_lt tuple2_lt_asym tuple2_le_trans kl)
      as Hs.
    rewrite <- (sort_keyed_perm tuple2_lt kl) in Hkeys.
    induction Hs as [|p ps Hps IH Hp]; simpl; [constructor|].
    apply Forall_cons in Hkeys as [Hp1 Hps1].
    constructor; [by apply IH|].
    rewrite Forall_fmap. rewrite Forall_forall in Hp, Hps1 |- *.
    intros q Hq. unfold date_start_le. simpl.
    rewrite Hp1, (Hps1 q Hq). by apply Hp.
Qed.

(** ** C4: where the report is sorted *)





(** ** The window filter is a filter *)

Section WindowFilterFacts.
Variable strptime : string → format → option Z.

Lemma filter_loop_filter now days items : ∀ filtered,
  filter_loop strptime now days items filtered
  = (filtered ++ filter (λ it, keeps strptime now days it = true) items)%list.
Proof.
  induction items as [|it rest IH]; simpl; intros filtered.
  - by rewrite app_nil_r.
  - assert (∀ b, window_body strptime now days it = b →
                 keeps strptime now days it = match b with Ok c => c | _ => false end)
      as Hk by (intros b <-; reflexivity).
    destruct (window_body strptime now days it) as [[|]|[]] eqn:Hw;
      specialize (Hk _ eq_refl); rewrite IH; simpl.
    + rewrite filter_cons_True by done. by rewrite <- app_assoc.
    + rewrite filter_cons_False; [done | by rewrite Hk].
    + rewrite filter_cons_False; [done | by rewrite Hk].
    + rewrite filter_cons_False; [done | by rewrite Hk].
Qed.

Lemma filter_next_n_days_filter now items days :
  filter_next_n_days strptime now items days
  = filter (λ it, keeps strptime now days it = true) items.
Proof. apply filter_loop_filter. Qed.

Lemma elem_of_filter_next_n_days now items days it :
  it ∈ filter_next_n_days strptime now items days ↔
  it ∈ items ∧ keeps strptime now days it = true.
Proof. rewrite filter_next_n_days_filter, list_elem_of_filter. tauto. Qed.

(** What the loop decides for an item whose date parses. *)
Lemma keeps_parsed now days (it : item) ds dt :
  it !! "date" = Some ds → strptime ds FmtDate = Some dt →
  keeps strptime now days it =
    if bool_decide (date_of dt > date_of now)%Z
       && bool_decide (date_of dt ≤ date_of now + days)%Z
    then true
    else if bool_decide (date_of dt = date_of now)
    then today_keep strptime now it
    else false.
Proof.
  intros Hds Hdt. unfold keeps, window_body, getitem, strptime_res.
  rewrite Hds. simpl. rewrite Hdt. simpl.
  by repeat case_bool_decide.
Qed.
End WindowFilterFacts.

(** ** C10: the filter returns a subsequence of its input *)

Lemma sublist_filter_mono {A} (P : A → Prop) `{∀ x, Decision (P x)}
    (l1 l2 : list A) :
  l1 `sublist_of` l2 → filter P l1 `sublist_of` filter P l2.
Proof.
  induction 1 as [|x l1 l2 _ IH|x l1 l2 _ IH].
  - constructor.
  - rewrite !filter_cons. destruct (decide (P x)); [by constructor | done].
  - rewrite (filter_cons _ x). destruct (decide (P x)); [by constructor | done].
Qed.

(** C10: whatever the parser, the instant and the horizon, the output of
    [filter_next_n_days] is a subsequence of the input: it is obtained by
    deleting entries, so every retained entry is an input entry, the
    relative order is kept, and no entry occurs more often than in the
    input. *)
Theorem filter_next_n_days_subsequence strptime now items days :
  filter_next_n_days strptime now items days `sublist_of` items
  ∧ (∀ it, it ∈ filter_next_n_days strptime now items days → it ∈ items)
  ∧ (∀ it, (occurrences it (filter_next_n_days strptime now items days)
            ≤ occurrences it items)%nat).
Proof.
  assert (filter_next_n_days strptime now items days `sublist_of` items) as Hsub.
  { rewrite filter_next_n_days_filter. apply sublist_filter. }
  split; [done|]. split.
  - intros it Hin. by eapply elem_of_sublist.
  - intros it. unfold occurrences. by apply sublist_length, sublist_filter_mono.
Qed.

(** ** C6: the window of dates *)




(** ** C7: entries dated today *)

Lemma time_format_spec start_time_str :
  time_format start_time_str =
    if bool_decide (count_char ":" start_time_str = 2%nat)
    then FmtDateHMS else FmtDateHM.
Proof.
  unfold time_format, contains_char.
  case_bool_decide as Hc.
  - rewrite Hc. reflexivity.
  - apply Nat.eqb_neq in Hc. rewrite Hc. by rewrite andb_false_r.
Qed.



(** ** C9: the canonical hash and the order of the input *)

(** C9 at two bookings that share date, start time and type: the sort key
    ties, the stable sort keeps the input order, and the two orders of the
    same collection get different digests. *)
Lemma create_schedule_hash_depends_on_order :
  [game_league_a; game_league_b] ≡ₚ [game_league_b; game_league_a]
  ∧ create_schedule_hash [game_league_a; game_league_b]
    = Ok "4e2f7426eb09e2e9be8373179449aaa4"
  ∧ create_schedule_hash [game_league_b; game_league_a]
    = Ok "ab69b7972a590c60053b273815e9ca78"
  ∧ create_schedule_hash [game_league_a; game_league_b]
    ≠ create_schedule_hash [game_league_b; game_league_a].
Proof.
  split; [apply Permutation_swap|].
  assert (create_schedule_hash [game_league_a; game_league_b]
          = Ok "4e2f7426eb09e2e9be8373179449aaa4") as Hab
    by (vm_compute; reflexivity).
  assert (create_schedule_hash [game_league_b; game_league_a]
          = Ok "ab69b7972a590c60053b273815e9ca78") as Hba
    by (vm_compute; reflexivity).
  repeat split; [done..|]. rewrite Hab, Hba. discriminate.
Qed.

(** ** The scenarios of the specification *)

Example scenario_pure_addition :
  detect_changes ascending_order [game_june1] [game_june1; practice_june2]
  = Ok {| added := [practice_june2]; removed := []; modified := [];
          has_changes := true |}.
Proof. vm_compute. reflexivity. Qed.

Example scenario_pure_modification :
  detect_changes ascending_order [game_june1] [game_june1_moved]
  = Ok {| added := []; removed := [];
          modified := [("2024-06-01_18:00_Game_LeagueA",
                        game_june1, game_june1_moved)];
          has_changes := true |}.
Proof. vm_compute. reflexivity. Qed.

Example scenario_window_aging :
  detect_changes ascending_order
    (filter_next_n_days strptime_padded noon_june1 [game_may31; game_june8] 7)
    (filter_next_n_days strptime_padded noon_june1 [game_june8] 7)
  = Ok empty_report.
Proof. vm_compute. reflexivity. Qed.

(* ================================================================== *)
(** * Further properties of the window filter *)
(* ================================================================== *)

Lemma keeps_no_date strptime now days (it : item) :
  it !! "date" = None → keeps strptime now days it = false.
Proof.
  intros H. unfold keeps, window_body, getitem. by rewrite H.
Qed.

Lemma keeps_bad_date strptime now days (it : item) ds :
  it !! "date" = Some ds → strptime ds FmtDate = None →
  keeps strptime now days it = false.
Proof.
  intros H Hp. unfold keeps, window_body, getitem, strptime_res.
  rewrite H. simpl. by rewrite Hp.
Qed.

Lemma keeps_inv strptime now days (it : item) :
  keeps strptime now days it = true →
  ∃ ds dt, it !! "date" = Some ds ∧ strptime ds FmtDate = Some dt
           ∧ ((date_of now < date_of dt ≤ date_of now + days)%Z
              ∨ (date_of dt = date_of now
                 ∧ today_keep strptime now it = true)).
Proof.
  intros Hk.
  destruct (it !! "date") as [ds|] eqn:Hds.
  2:{ by rewrite keeps_no_date in Hk. }
  destruct (strptime ds FmtDate) as [dt|] eqn:Hdt.
  2:{ by rewrite (keeps_bad_date _ _ _ _ ds) in Hk. }
  exists ds, dt. split; [done|]. split; [done|].
  rewrite (keeps_parsed _ _ _ _ _ _ Hds Hdt) in Hk. revert Hk.
  repeat case_bool_decide; simpl; intros Hk; try done;
    first [left; lia | by right].
Qed.



(** X1: filtering is idempotent: at the same instant and horizon, filtering
    an already filtered list changes nothing. *)
Theorem filter_next_n_days_idempotent strptime now items days :
  filter_next_n_days strptime now
    (filter_next_n_days strptime now items days) days
  = filter_next_n_days strptime now items days.
Proof.
  rewrite !filter_next_n_days_filter. by apply list_filter_filter_r.
Qed.

(** X2: the filter decides entry by entry: filtering a concatenation is the
    concatenation of the filtered parts. *)
Theorem filter_next_n_days_app strptime now items1 items2 days :
  filter_next_n_days strptime now (items1 ++ items2)%list days
  = (filter_next_n_days strptime now items1 days
     ++ filter_next_n_days strptime now items2 days)%list.
Proof. rewrite !filter_next_n_days_filter. apply filter_app. Qed.

(** X3: an entry without a [date] field, or whose [date] does not parse as
    a calendar date, is never retained, whatever its other fields, the
    instant and the horizon. *)
Theorem filter_next_n_days_drops_undated strptime now items days (it : item) :
  (it !! "date" = None
   ∨ ∃ ds, it !! "date" = Some ds ∧ strptime ds FmtDate = None) →
  it ∉ filter_next_n_days strptime now items days.
Proof.
  intros Hbad [_ Hk]%elem_of_filter_next_n_days.
  destruct Hbad as [Hnone | (ds & Hds & Hp)].
  - by rewrite keeps_no_date in Hk.
  - by rewrite (keeps_bad_date _ _ _ _ ds) in Hk.
Qed.

Lemma filter_next_n_days_drops_undated_witness :
  (no_date_item ∉ filter_next_n_days strptime_padded noon_june1
                    [no_date_item; game_june1] 7)
  ∧ ((<["date" := "June 1"]> game_june1)
       ∉ filter_next_n_days strptime_padded noon_june1
           [<["date" := "June 1"]> game_june1] 7).
Proof.
  split.
  - apply filter_next_n_days_drops_undated. left. vm_compute. reflexivity.
  - apply filter_next_n_days_drops_undated. right. exists "June 1".
    split; vm_compute; reflexivity.
Defined.



(** X5: every retained entry has a date that parses and lies in the window:
    either strictly after today and at most today + days, or today itself;
    so with a horizon of zero or fewer days only entries dated today are
    retained. *)
Theorem filter_next_n_days_within_window strptime now items days (it : item) :
  it ∈ filter_next_n_days strptime now items days →
  ∃ ds dt, it !! "date" = Some ds ∧ strptime ds FmtDate = Some dt
           ∧ ((date_of now < date_of dt ≤ date_of now + days)%Z
              ∨ date_of dt = date_of now)
           ∧ ((days ≤ 0)%Z → date_of dt = date_of now).
Proof.
  intros [_ Hk]%elem_of_filter_next_n_days.
  apply keeps_inv in Hk as (ds & dt & Hds & Hdt & Hcase).
  exists ds, dt. repeat split; [done..| |]; destruct Hcase as [?|[? _]];
    auto; lia.
Qed.

Lemma filter_next_n_days_within_window_witness :
  ∃ ds dt, game_june8 !! "date" = Some ds
           ∧ strptime_padded ds FmtDate = Some dt
           ∧ ((date_of noon_june1 < date_of dt ≤ date_of noon_june1 + 7)%Z
              ∨ date_of dt = date_of noon_june1)
           ∧ ((7 ≤ 0)%Z → date_of dt = date_of noon_june1).
Proof.
  apply (filter_next_n_days_within_window strptime_padded noon_june1
           [game_june8] 7 game_june8).
  vm_compute. left.
Defined.

(* ================================================================== *)
(** * Further properties of the diff engine *)
(* ================================================================== *)

Lemma entry_under_None k items :
  entry_under k items = None ↔ no_key k items.
Proof.
  unfold no_key. induction items as [|it rest IH]; simpl.
  - split; [constructor | done].
  - rewrite Forall_cons, <- IH. destruct (entry_under k rest).
    + split; [done | by intros [_ ?]].
    + case_bool_decide as Hk.
      * split; [done | by intros [? _]].
      * split; [by intros _ | done].
Qed.

Lemma entry_under_last k items e :
  entry_under k items = Some e ↔ last_with_key k e items.
Proof.
  unfold last_with_key. split.
  - induction items as [|it rest IH]; simpl; [done|].
    destruct (entry_under k rest) as [e'|] eqn:Hrest.
    + intros [= ->]. destruct IH as (l1 & l2 & -> & Hk & Hl2); [done|].
      by exists (it :: l1), l2.
    + case_bool_decide as Hk; [|done]. intros [= ->].
      exists [], rest. repeat split; [done|]. by apply entry_under_None.
  - intros (l1 & l2 & -> & Hk & Hl2).
    induction l1 as [|x l1 IH]; simpl.
    + apply entry_under_None in Hl2. rewrite Hl2.
      by rewrite bool_decide_eq_true_2.
    + by rewrite IH.
Qed.


Lemma item_keys_values (keys : list string) (vs : list item) :
  Forall2 (λ k v, create_schedule_key v = Ok k) keys vs → item_keys vs = keys.
Proof.
  induction 1 as [|k v ks vs Hk _ IH]; [done|].
  unfold item_keys in *. cbn [omap list_omap]. rewrite Hk. by f_equal.
Qed.

Lemma Forall2_elem_of_r {A B} (P : A → B → Prop) l k y :
  Forall2 P l k → y ∈ k → ∃ x, x ∈ l ∧ P x y.
Proof.
  induction 1 as [|x y' l k Hxy _ IH]; [by intros ?%elem_of_nil|].
  intros [->|Hin]%elem_of_cons.
  - exists x. split; [by left | done].
  - destruct (IH Hin) as (x' & ? & ?). exists x'. split; [by right | done].
Qed.

Lemma triples_keys_sublist old_keys new_keys (keys : list string) :
  (omap (triple_of old_keys new_keys) keys).*1.*1 `sublist_of` keys.
Proof.
  induction keys as [|k keys IH]; simpl; [constructor|].
  unfold triple_of at 1.
  destruct (old_keys !! k) as [o|]; [|by constructor].
  destruct (new_keys !! k) as [n|]; [|by constructor].
  destruct (details_differ o n); simpl; by constructor.
Qed.

Lemma NoDup_sublist {A} (l k : list A) :
  l `sublist_of` k → NoDup k → NoDup l.
Proof.
  induction 1 as [|x l k Hlk IH|x l k Hlk IH]; [done|..].
  - rewrite !NoDup_cons. intros [Hx Hk]. split; [|by apply IH].
    intros Hin. apply Hx. by eapply elem_of_sublist.
  - rewrite NoDup_cons. intros [_ Hk]. by apply IH.
Qed.

Lemma details_differ_sym o n : details_differ o n = details_differ n o.
Proof.
  unfold details_differ.
  assert (∀ a b : option string,
            bool_decide (a ≠ b) = bool_decide (b ≠ a)) as Hs
    by (intros; apply bool_decide_ext; split; congruence).
  by rewrite (Hs (get o "team")), (Hs (get o "venue")), (Hs (get o "end_time")).
Qed.

Lemma details_differ_false o n :
  details_differ o n = false ↔
  get o "team" = get n "team" ∧ get o "venue" = get n "venue"
  ∧ get o "end_time" = get n "end_time".
Proof.
  unfold details_differ. rewrite !orb_false_iff, !bool_decide_eq_false.
  split.
  - intros [[Ht Hv] He]. repeat split.
    + by destruct (decide (get o "team" = get n "team")).
    + by destruct (decide (get o "venue" = get n "venue")).
    + by destruct (decide (get o "end_time" = get n "end_time")).
  - intros (-> & -> & ->). repeat split; by intros ?.
Qed.

Lemma report_lengths ord old_items new_items r :
  detect_changes ord old_items new_items = Ok r →
  length (added r) = size (keys_of new_items ∖ keys_of old_items)
  ∧ length (removed r) = size (keys_of old_items ∖ keys_of new_items).
Proof.
  intros H. apply detect_changes_inv in H as (om & nm & Ho & Hn & [Ha Hr _ _]).
  apply Forall2_length in Ha, Hr. rewrite size_iter in Ha, Hr.
  by rewrite <- (key_dict_dom _ _ Ho), <- (key_dict_dom _ _ Hn).
Qed.

Lemma report_item_keys ord old_items new_items r :
  detect_changes ord old_items new_items = Ok r →
  item_keys (added r) = iter ord (keys_of new_items ∖ keys_of old_items)
  ∧ item_keys (removed r) = iter ord (keys_of old_items ∖ keys_of new_items).
Proof.
  intros H. apply detect_changes_inv in H as (om & nm & Ho & Hn & [Ha Hr _ _]).
  rewrite <- (key_dict_dom _ _ Ho), <- (key_dict_dom _ _ Hn). split.
  - apply item_keys_values. eapply Forall2_flip, Forall2_impl.
    { apply Forall2_flip, Ha. }
    intros v k. apply (key_dict_value_key _ _ _ _ Hn).
  - apply item_keys_values. eapply Forall2_flip, Forall2_impl.
    { apply Forall2_flip, Hr. }
    intros v k. apply (key_dict_value_key _ _ _ _ Ho).
Qed.

Lemma elem_of_modified ord old_items new_items r k o n :
  detect_changes ord old_items new_items = Ok r →
  (k, o, n) ∈ modified r ↔
  entry_under k old_items = Some o ∧ entry_under k new_items = Some n
  ∧ details_differ o n = true.
Proof.
  intros H. apply detect_changes_inv in H as (om & nm & Ho & Hn & [_ _ Hm _]).
  rewrite Hm, elem_of_triples, elem_of_iter, elem_of_intersection, !elem_of_dom.
  rewrite <- (key_dict_empty_lookup _ _ _ Ho), <- (key_dict_empty_lookup _ _ _ Hn).
  split; [tauto|]. intros (Hko & Hkn & Hd). rewrite Hko, Hkn. eauto.
Qed.

Lemma elem_of_added ord old_items new_items r e :
  detect_changes ord old_items new_items = Ok r →
  e ∈ added r ↔
  ∃ k, entry_under k new_items = Some e ∧ entry_under k old_items = None.
Proof.
  intros H. apply detect_changes_inv in H as (om & nm & Ho & Hn & [Ha _ _ _]).
  split.
  - intros (k & Hk & Hv)%(Forall2_elem_of_r _ _ _ _ Ha). exists k.
    apply elem_of_iter, elem_of_difference in Hk as [_ Hk].
    rewrite <- (key_dict_empty_lookup _ _ _ Ho), <- (key_dict_empty_lookup _ _ _ Hn).
    split; [done|]. by apply not_elem_of_dom.
  - intros (k & Hkn & Hko).
    rewrite <- (key_dict_empty_lookup _ _ _ Hn) in Hkn.
    rewrite <- (key_dict_empty_lookup _ _ _ Ho) in Hko.
    assert (k ∈ iter ord (dom nm ∖ dom om)) as Hin.
    { rewrite elem_of_iter, elem_of_difference, !elem_of_dom, Hkn, Hko.
      split; [eauto | by intros [? ?]]. }
    apply list_elem_of_lookup in Hin as [i Hi].
    destruct (Forall2_lookup_l _ _ _ _ _ Ha Hi) as (v & Hv & Hkv).
    assert (v = e) as -> by congruence. by eapply list_elem_of_lookup_2.
Qed.

Lemma elem_of_removed ord old_items new_items r e :
  detect_changes ord old_items new_items = Ok r →
  e ∈ removed r ↔
  ∃ k, entry_under k old_items = Some e ∧ entry_under k new_items = None.
Proof.
  intros H. apply detect_changes_inv in H as (om & nm & Ho & Hn & [_ Hr _ _]).
  split.
  - intros (k & Hk & Hv)%(Forall2_elem_of_r _ _ _ _ Hr). exists k.
    apply elem_of_iter, elem_of_difference in Hk as [_ Hk].
    rewrite <- (key_dict_empty_lookup _ _ _ Ho), <- (key_dict_empty_lookup _ _ _ Hn).
    split; [done|]. by apply not_elem_of_dom.
  - intros (k & Hko & Hkn).
    rewrite <- (key_dict_empty_lookup _ _ _ Hn) in Hkn.
    rewrite <- (key_dict_empty_lookup _ _ _ Ho) in Hko.
    assert (k ∈ iter ord (dom om ∖ dom nm)) as Hin.
    { rewrite elem_of_iter, elem_of_difference, !elem_of_dom, Hkn, Hko.
      split; [eauto | by intros [? ?]]. }
    apply list_elem_of_lookup in Hin as [i Hi].
    destruct (Forall2_lookup_l _ _ _ _ _ Hr Hi) as (v & Hv & Hkv).
    assert (v = e) as -> by congruence. by eapply list_elem_of_lookup_2.
Qed.



(** X7: a report never invents an entry, and duplicates are resolved by the
    last occurrence: every entry of [added] is the last entry of
    [new_items] with its key, and no entry of [old_items] has that key;
    every entry of [removed] is the last entry of [old_items] with its key,
    and no entry of [new_items] has it; the two entries of a modification
    triple are the last entries with the triple's key in [old_items] and in
    [new_items]. *)
Theorem report_entries_are_last_occurrences ord old_items new_items r :
  detect_changes ord old_items new_items = Ok r →
  (∀ e, e ∈ added r →
        ∃ k, last_with_key k e new_items ∧ no_key k old_items)
  ∧ (∀ e, e ∈ removed r →
          ∃ k, last_with_key k e old_items ∧ no_key k new_items)
  ∧ (∀ k o n, (k, o, n) ∈ modified r →
              last_with_key k o old_items ∧ last_with_key k n new_items).
Proof.
  intros H. split; [|split].
  - intros e (k & Hn & Ho)%(elem_of_added _ _ _ _ _ H). exists k.
    by rewrite <- entry_under_last, <- entry_under_None.
  - intros e (k & Ho & Hn)%(elem_of_removed _ _ _ _ _ H). exists k.
    by rewrite <- entry_under_last, <- entry_under_None.
  - intros k o n (Ho & Hn & _)%(elem_of_modified _ _ _ _ _ _ _ H).
    by rewrite <- !entry_under_last.
Qed.

Lemma report_entries_are_last_occurrences_witness :
  ∃ k, last_with_key k game_june1_moved [game_june1; game_june1_moved]
       ∧ no_key k [practice_june2].
Proof.
  destruct (report_entries_are_last_occurrences ascending_order
              [practice_june2] [game_june1; game_june1_moved]
              {| added := [game_june1_moved]; removed := [practice_june2];
                 modified := []; has_changes := true |}) as (Ha & _ & _).
  - vm_compute. reflexivity.
  - apply (Ha game_june1_moved). apply list_elem_of_In. left. reflexivity.
Defined.

(** X8: no key is reported twice: the entries of [added] have pairwise
    distinct keys, and so have those of [removed] and the triples of
    [modified]; [added] holds one entry for each key of [new_items] that
    [old_items] lacks, [removed] one for each key of [old_items] that
    [new_items] lacks. *)
Theorem report_keys_distinct ord old_items new_items r :
  detect_changes ord old_items new_items = Ok r →
  NoDup (item_keys (added r)) ∧ NoDup (item_keys (removed r))
  ∧ NoDup (modified r).*1.*1
  ∧ length (added r) = size (keys_of new_items ∖ keys_of old_items)
  ∧ length (removed r) = size (keys_of old_items ∖ keys_of new_items).
Proof.
  intros H. destruct (report_item_keys _ _ _ _ H) as [-> ->].
  destruct (report_lengths _ _ _ _ H) as [Hla Hlr].
  repeat split; [apply NoDup_iter..| |done|done].
  apply detect_changes_inv in H as (om & nm & _ & _ & [_ _ -> _]).
  eapply NoDup_sublist; [apply triples_keys_sublist | apply NoDup_iter].
Qed.

Lemma report_keys_distinct_witness :
  NoDup (item_keys [game_june1_moved])
  ∧ length [game_june1_moved]
    = size (keys_of [game_june1; game_june1_moved] ∖ keys_of [practice_june2]).
Proof.
  destruct (report_keys_distinct ascending_order
              [practice_june2] [game_june1; game_june1_moved]
              {| added := [game_june1_moved]; removed := [practice_june2];
                 modified := []; has_changes := true |})
    as (Hnd & _ & _ & Hlen & _).
  - vm_compute. reflexivity.
  - split; [exact Hnd | exact Hlen].
Defined.

(** X9: against an empty old collection every key of the new collection is
    reported as added, nothing is removed or modified, and [has_changes]
    holds unless the new collection is empty too; against an empty new
    collection every key of the old one is reported as removed. *)
Theorem detect_changes_empty_side ord items r :
  (detect_changes ord [] items = Ok r →
   removed r = [] ∧ modified r = [] ∧ keys_of (added r) = keys_of items
   ∧ length (added r) = size (keys_of items)
   ∧ (has_changes r = true ↔ items ≠ []))
  ∧ (detect_changes ord items [] = Ok r →
     added r = [] ∧ modified r = [] ∧ keys_of (removed r) = keys_of items
     ∧ length (removed r) = size (keys_of items)
     ∧ (has_changes r = true ↔ items ≠ [])).
Proof.
  assert (∀ {T} (l : list T), length l = 0%nat → l = []) as Hnil
    by (intros T []; simpl; done).
  assert (size (keys_of []) = 0%nat) as Hk0 by apply size_empty.
  assert (∀ l : list item, Forall has_identity l → l ≠ [] →
            size (keys_of l) ≠ 0%nat) as Hne.
  { intros l Hl Hnonempty. destruct Hl as [|x l Hx _]; [done|]. simpl.
    apply create_schedule_key_Ok in Hx as [k ->].
    intros Hs%size_empty_iff. apply (not_elem_of_empty (C:=gset string) k).
    apply Hs, elem_of_union_l. by apply elem_of_singleton. }
  split; intros H.
  - destruct (report_lengths _ _ _ _ H) as [Hla Hlr].
    destruct (report_key_sets _ _ _ _ H) as (HA & _ & HM).
    change (keys_of []) with (∅ : gset string) in *.
    rewrite difference_empty_L in Hla, HA.
    rewrite empty_difference_L, size_empty in Hlr.
    assert (modified r = []) as Hm.
    { destruct (modified r) as [|[[k o] n] ms] eqn:Hmod; [done|].
      assert ((k, o, n) ∈ modified r) as Hin by (rewrite Hmod; by left).
      by apply (elem_of_modified _ _ _ _ _ _ _ H) in Hin as (? & _). }
    repeat split; auto.
    + rewrite (has_changes_iff _ _ _ _ H), Hm, (Hnil _ _ Hlr).
      intros [Ha|[?|?]]; [|done..].
      intros ->. apply Ha, Hnil. by rewrite Hla.
    + intros Hitems. apply (has_changes_iff _ _ _ _ H). left.
      assert (Forall has_identity items) as Hid.
      { apply (detect_changes_Ok_identity ord [] items). by eexists. }
      apply (Hne _ Hid) in Hitems. intros Ha. rewrite Ha in Hla. done.
  - destruct (report_lengths _ _ _ _ H) as [Hla Hlr].
    destruct (report_key_sets _ _ _ _ H) as (_ & HR & HM).
    change (keys_of []) with (∅ : gset string) in *.
    rewrite difference_empty_L in Hlr, HR.
    rewrite empty_difference_L, size_empty in Hla.
    assert (modified r = []) as Hm.
    { destruct (modified r) as [|[[k o] n] ms] eqn:Hmod; [done|].
      assert ((k, o, n) ∈ modified r) as Hin by (rewrite Hmod; by left).
      by apply (elem_of_modified _ _ _ _ _ _ _ H) in Hin as (_ & ? & _). }
    repeat split; auto.
    + rewrite (has_changes_iff _ _ _ _ H), Hm, (Hnil _ _ Hla).
      intros [?|[Hr|?]]; [done| |done].
      intros ->. apply Hr, Hnil. by rewrite Hlr.
    + intros Hitems. apply (has_changes_iff _ _ _ _ H). right. left.
      assert (Forall has_identity items) as Hid.
      { apply (detect_changes_Ok_identity ord items []). by eexists. }
      apply (Hne _ Hid) in Hitems. intros Hr. rewrite Hr in Hlr. done.
Qed.

Lemma detect_changes_empty_side_witness :
  removed {| added := [game_june1]; removed := []; modified := [];
             has_changes := true |} = []
  ∧ keys_of [game_june1] = keys_of [game_june1].
Proof.
  destruct (detect_changes_empty_side ascending_order [game_june1]
              {| added := [game_june1]; removed := []; modified := [];
                 has_changes := true |}) as [Hold _].
  destruct Hold as (Hr & _ & Hk & _); [vm_compute; reflexivity|].
  split; [exact Hr | exact Hk].
Defined.

(** X10: swapping the two collections mirrors the report: a triple
    [(k, o, n)] is in [modified] of [detect_changes(A, B)] exactly when
    [(k, n, o)] is in [modified] of [detect_changes(B, A)], an entry is
    removed by the first exactly when it is added by the second, and the
    two reports have the same [has_changes]. *)
Theorem detect_changes_swap ord1 ord2 A B r1 r2 :
  detect_changes ord1 A B = Ok r1 →
  detect_changes ord2 B A = Ok r2 →
  (∀ k o n, (k, o, n) ∈ modified r1 ↔ (k, n, o) ∈ modified r2)
  ∧ (∀ e, e ∈ removed r1 ↔ e ∈ added r2)
  ∧ (∀ e, e ∈ added r1 ↔ e ∈ removed r2)
  ∧ has_changes r1 = has_changes r2.
Proof.
  intros H1 H2.
  assert (∀ k o n, (k, o, n) ∈ modified r1 ↔ (k, n, o) ∈ modified r2) as Hm.
  { intros k o n.
    rewrite (elem_of_modified _ _ _ _ _ _ _ H1), (elem_of_modified _ _ _ _ _ _ _ H2).
    rewrite (details_differ_sym n o). tauto. }
  assert (∀ e, e ∈ removed r1 ↔ e ∈ added r2) as Hr.
  { intros e. by rewrite (elem_of_removed _ _ _ _ _ H1), (elem_of_added _ _ _ _ _ H2). }
  assert (∀ e, e ∈ added r1 ↔ e ∈ removed r2) as Ha.
  { intros e. by rewrite (elem_of_added _ _ _ _ _ H1), (elem_of_removed _ _ _ _ _ H2). }
  repeat split; try apply Hm; try apply Hr; try apply Ha.
  assert (∀ {T} (l : list T), l ≠ [] ↔ ∃ x, x ∈ l) as Hne.
  { intros T [|x l]; split; try done.
    - by intros [x ?%elem_of_nil].
    - intros _. exists x. by left. }
  apply eq_true_iff_eq.
  rewrite (has_changes_iff _ _ _ _ H1), (has_changes_iff _ _ _ _ H2), !Hne.
  split.
  - intros [[e He]|[[e He]|[[[k o] n] Ht]]].
    + right. left. exists e. by apply Ha.
    + left. exists e. by apply Hr.
    + right. right. exists (k, n, o). by apply Hm.
  - intros [[e He]|[[e He]|[[[k n] o] Ht]]].
    + right. left. exists e. by apply Hr.
    + left. exists e. by apply Ha.
    + right. right. exists (k, o, n). by apply Hm.
Qed.

Lemma detect_changes_swap_witness :
  ("2024-06-01_18:00_Game_LeagueA", game_june1, game_june1_moved)
    ∈ [("2024-06-01_18:00_Game_LeagueA", game_june1, game_june1_moved)]
  ↔ ("2024-06-01_18:00_Game_LeagueA", game_june1_moved, game_june1)
    ∈ [("2024-06-01_18:00_Game_LeagueA", game_june1_moved, game_june1)].
Proof.
  refine (proj1 (detect_changes_swap ascending_order descending_order
            [game_june1] [game_june1_moved]
            {| added := []; removed := [];
               modified := [("2024-06-01_18:00_Game_LeagueA",
                             game_june1, game_june1_moved)];
               has_changes := true |}
            {| added := []; removed := [];
               modified := [("2024-06-01_18:00_Game_LeagueA",
                             game_june1_moved, game_june1)];
               has_changes := true |} _ _)
            "2024-06-01_18:00_Game_LeagueA" game_june1 game_june1_moved);
    vm_compute; reflexivity.
Defined.

(** ** The order of the input *)








(* ================================================================== *)
(** * Further properties of the identity key and of the hash *)
(* ================================================================== *)

Lemma append_separator_inj c a a' r r' :
  count_char c a = 0%nat → count_char c a' = 0%nat →
  a ++ String c r = a' ++ String c r' → a = a' ∧ r = r'.
Proof.
  revert a'. induction a as [|x a IH]; intros [|x' a']; simpl.
  - intros _ _ [= ->]. done.
  - intros _ Hc [= <- _]. rewrite Ascii.eqb_refl in Hc. done.
  - intros Hc _ [= -> _]. rewrite Ascii.eqb_refl in Hc. done.
  - intros Hc Hc' [= -> Heq].
    destruct (Ascii.eqb c x'); [done|]. simpl in Hc, Hc'.
    destruct (IH a' Hc Hc' Heq) as [-> ->]. done.
Qed.

(** X12: on entries whose [date], [start_time] and [type] hold no
    underscore the key identifies the booking: two such entries have the
    same key exactly when they agree on [date], [start_time], [type] and
    [league]. *)
Theorem create_schedule_key_injective (a b : item) ka kb :
  create_schedule_key a = Ok ka →
  create_schedule_key b = Ok kb →
  (∀ f v, f ∈ ["date"; "start_time"; "type"] →
          a !! f = Some v ∨ b !! f = Some v → count_char "_" v = 0%nat) →
  ka = kb ↔
  a !! "date" = b !! "date" ∧ a !! "start_time" = b !! "start_time"
  ∧ a !! "type" = b !! "type" ∧ a !! "league" = b !! "league".
Proof.
  unfold create_schedule_key, getitem. intros Ha Hb Hfree.
  destruct (a !! "date") as [d|] eqn:Hd; [|done].
  destruct (a !! "start_time") as [s|] eqn:Hs; [|done].
  destruct (a !! "type") as [t|] eqn:Ht; [|done].
  destruct (a !! "league") as [l|] eqn:Hl; [|done].
  destruct (b !! "date") as [d'|] eqn:Hd'; [|done].
  destruct (b !! "start_time") as [s'|] eqn:Hs'; [|done].
  destruct (b !! "type") as [t'|] eqn:Ht'; [|done].
  destruct (b !! "league") as [l'|] eqn:Hl'; [|done].
  simpl in Ha, Hb. injection Ha as <-. injection Hb as <-.
  assert ("date" ∈ ["date"; "start_time"; "type"]) as M1 by (by left).
  assert ("start_time" ∈ ["date"; "start_time"; "type"]) as M2
    by (right; by left).
  assert ("type" ∈ ["date"; "start_time"; "type"]) as M3
    by (right; right; by left).
  split.
  - intros Heq.
    apply append_separator_inj in Heq as [-> Heq];
      [|apply (Hfree "date"); auto..].
    apply append_separator_inj in Heq as [-> Heq];
      [|apply (Hfree "start_time"); auto..].
    apply append_separator_inj in Heq as [-> ->];
      [|apply (Hfree "type"); auto..].
    done.
  - intros ([= ->] & [= ->] & [= ->] & [= ->]). done.
Qed.

Lemma create_schedule_key_injective_witness :
  "2024-06-01_18:00_Game_LeagueA" = "2024-06-01_18:00_Game_LeagueA" ↔
  game_june1 !! "date" = game_june1_moved !! "date"
  ∧ game_june1 !! "start_time" = game_june1_moved !! "start_time"
  ∧ game_june1 !! "type" = game_june1_moved !! "type"
  ∧ game_june1 !! "league" = game_june1_moved !! "league".
Proof.
  apply (create_schedule_key_injective game_june1 game_june1_moved);
    [vm_compute; reflexivity..|].
  intros f v Hf Hv.
  repeat (apply elem_of_cons in Hf as [->|Hf];
          [vm_compute in Hv; destruct Hv as [[= <-]|[= <-]]; reflexivity|]).
  by apply elem_of_nil in Hf.
Defined.

(** Without the condition on underscores two different bookings can share
    a key. *)
Example create_schedule_key_collision :
  create_schedule_key (mk_item "2024-06-01" "18:00" "19:00" "Game_U11" "A" "T" "V")
  = create_schedule_key (mk_item "2024-06-01" "18:00" "19:00" "Game" "U11_A" "T" "V").
Proof. vm_compute. reflexivity. Qed.

(** ** Order of triples of strings *)

Lemma pair_compare_refl a : pair_compare a a = Eq.
Proof. unfold pair_compare. by rewrite !str_compare_refl. Qed.

Lemma tuple3_lt_compare a b : tuple3_lt a b = true ↔ triple_compare a b = Lt.
Proof.
  unfold tuple3_lt, triple_compare, pair_compare, String.ltb.
  destruct a as [[a1 a2] a3], b as [[b1 b2] b3]. simpl.
  destruct (String.eqb a1 b1) eqn:H1.
  - apply str_eqb_compare in H1. rewrite H1.
    destruct (String.eqb a2 b2) eqn:H2.
    + apply str_eqb_compare in H2. rewrite H2.
      destruct (String.compare a3 b3); split; congruence.
    + destruct (String.compare a2 b2) eqn:Hc; try (split; congruence).
      apply str_eqb_compare in Hc. congruence.
  - destruct (String.compare a1 b1) eqn:Hc; try (split; congruence).
    apply str_eqb_compare in Hc. congruence.
Qed.

Lemma triple_compare_antisym a b :
  triple_compare a b = CompOpp (triple_compare b a).
Proof.
  unfold triple_compare.
  rewrite (pair_compare_antisym a.1 b.1), (String.compare_antisym a.2 b.2).
  by destruct (pair_compare b.1 a.1).
Qed.

Lemma triple_compare_eq a b : triple_compare a b = Eq → a = b.
Proof.
  unfold triple_compare. destruct a as [a12 a3], b as [b12 b3]. simpl.
  destruct (pair_compare a12 b12) eqn:H1; try discriminate.
  intros H2. apply pair_compare_eq in H1. apply String.compare_eq_iff in H2.
  congruence.
Qed.

Lemma triple_compare_lt_trans a b c :
  triple_compare a b = Lt → triple_compare b c = Lt → triple_compare a c = Lt.
Proof.
  unfold triple_compare. destruct a as [a12 a3], b as [b12 b3], c as [c12 c3].
  simpl.
  destruct (pair_compare a12 b12) eqn:Hab; try discriminate;
    destruct (pair_compare b12 c12) eqn:Hbc; try discriminate; intros H1 H2.
  - apply pair_compare_eq in Hab, Hbc. subst.
    rewrite pair_compare_refl. eauto using str_compare_lt_trans.
  - apply pair_compare_eq in Hab. subst. by rewrite Hbc.
  - apply pair_compare_eq in Hbc. subst. by rewrite Hab.
  - by rewrite (pair_compare_lt_trans _ _ _ Hab Hbc).
Qed.

Lemma tuple3_lt_asym a b : tuple3_lt a b = true → tuple3_lt b a = false.
Proof.
  rewrite tuple3_lt_compare. intros H. apply not_true_is_false.
  rewrite tuple3_lt_compare, triple_compare_antisym, H. discriminate.
Qed.

Lemma tuple3_lt_total a b : tuple3_lt b a = false → a ≠ b → tuple3_lt a b = true.
Proof.
  intros H Hne. apply not_true_iff_false in H.
  rewrite tuple3_lt_compare in H. apply tuple3_lt_compare.
  rewrite triple_compare_antisym in H.
  destruct (triple_compare a b) eqn:Hc; [|done|done].
  by apply triple_compare_eq in Hc.
Qed.

Lemma tuple3_le_trans a b c :
  tuple3_lt b a = false → tuple3_lt c b = false → tuple3_lt c a = false.
Proof.
  intros H1 H2. apply not_true_is_false. intros H3.
  destruct (decide (a = b)) as [->|Hab]; [congruence|].
  destruct (decide (b = c)) as [->|Hbc]; [congruence|].
  apply (tuple3_lt_total _ _ H1) in Hab. apply (tuple3_lt_total _ _ H2) in Hbc.
  rewrite tuple3_lt_compare in Hab, Hbc, H3.
  pose proof (triple_compare_lt_trans _ _ _ Hab Hbc) as Hac.
  rewrite triple_compare_antisym, Hac in H3. discriminate.
Qed.

(** ** Sorting a list whose keys are distinct *)

Section SortedUnique.
Context {K : Type} (lt : K → K → bool).
Hypothesis lt_asym : ∀ a b, lt a b = true → lt b a = false.
Hypothesis lt_total : ∀ a b, lt b a = false → a ≠ b → lt a b = true.
Hypothesis le_trans :
  ∀ a b c, lt b a = false → lt c b = false → lt c a = false.

Lemma sorted_strictly (l : list (K * item)) :
  StronglySorted (λ x y, lt y.1 x.1 = false) l → NoDup l.*1 →
  StronglySorted (λ x y, lt x.1 y.1 = true) l.
Proof.
  induction 1 as [|x l Hl IH Hx]; [constructor|].
  rewrite fmap_cons, NoDup_cons. intros [Hnotin Hnd].
  constructor; [by apply IH|].
  rewrite Forall_forall in Hx |- *. intros y Hy.
  apply lt_total; [by apply Hx|]. intros Heq. apply Hnotin.
  rewrite Heq. by apply list_elem_of_fmap_2.
Qed.

Lemma sort_keyed_unique (l l' : list (K * item)) :
  l ≡ₚ l' → NoDup l.*1 → sort_keyed lt l = sort_keyed lt l'.
Proof.
  intros Hp Hnd.
  assert (AntiSymm eq (λ x y : K * item, lt x.1 y.1 = true)) as Hanti.
  { intros x y Hxy Hyx. apply lt_asym in Hxy. congruence. }
  apply (StronglySorted_unique (λ x y : K * item, lt x.1 y.1 = true)).
  - apply sorted_strictly; [by apply sort_keyed_sorted|].
    by rewrite (sort_keyed_perm lt l).
  - apply sorted_strictly; [by apply sort_keyed_sorted|].
    by rewrite (sort_keyed_perm lt l'), <- Hp.
  - by rewrite !sort_keyed_perm.
Qed.
End SortedUnique.

Lemma decorate_Permutation {K} (key : item → res K) l l' kl :
  l ≡ₚ l' → decorate key l = Ok kl →
  ∃ kl', decorate key l' = Ok kl' ∧ kl ≡ₚ kl'.
Proof.
  intros Hp. revert kl.
  induction Hp as [|x l l' _ IH|x y l|l l' l'' _ IH1 _ IH2]; simpl; intros kl H.
  - injection H as <-. by exists [].
  - inv_bind H. injection H as <-. destruct (IH _ Ha0) as (kl' & -> & Hkl).
    rewrite Ha. simpl. eexists. split; [done|]. by constructor.
  - apply bind_Ok_inv in H as (ky & Hy & H).
    apply bind_Ok_inv in H as (krest & Hrest & H). injection H as <-.
    apply bind_Ok_inv in Hrest as (kx & Hx & Hrest).
    apply bind_Ok_inv in Hrest as (kr & Hr & Hrest). injection Hrest as <-.
    rewrite Hx. simpl. rewrite Hy. simpl. rewrite Hr. simpl.
    eexists. split; [done|]. apply Permutation_swap.
  - destruct (IH1 _ H) as (kl' & H' & Hkl).
    destruct (IH2 _ H') as (kl'' & H'' & Hkl'). exists kl''.
    split; [done|]. by etrans.
Qed.

Lemma decorate_keys l kl :
  decorate date_start_type_key l = Ok kl → kl.*1 = sort_keys l.
Proof.
  revert kl. induction l as [|x l IH]; simpl; intros kl H.
  - by injection H as <-.
  - inv_bind H. injection H as <-. unfold sort_keys in *.
    cbn [omap list_omap]. rewrite Ha. simpl. f_equal. by apply IH.
Qed.

(** X13: when no two entries share the sort key [(date, start_time, type)],
    the hash does not depend on the order of the input: whenever
    [create_schedule_hash] returns a digest for a collection, it returns
    the same digest for every permutation of it. *)
Theorem create_schedule_hash_order_independent items items' h :
  items ≡ₚ items' →
  NoDup (sort_keys items) →
  create_schedule_hash items = Ok h →
  create_schedule_hash items' = Ok h.
Proof.
  intros Hp Hnd H. unfold create_schedule_hash, sorted in *.
  apply bind_Ok_inv in H as (s & Hs & H).
  apply bind_Ok_inv in Hs as (kl & Hkl & Hs). injection Hs as <-.
  destruct (decorate_Permutation _ _ _ _ Hp Hkl) as (kl' & -> & Hperm).
  unfold mbind, res_bind in H |- *. cbv beta iota.
  assert (sort_keyed tuple3_lt kl = sort_keyed tuple3_lt kl') as <-.
  { apply sort_keyed_unique;
      eauto using tuple3_lt_asym, tuple3_lt_total, tuple3_le_trans.
    by rewrite (decorate_keys _ _ Hkl). }
  exact H.
Qed.

Lemma create_schedule_hash_order_independent_witness :
  ∃ h, create_schedule_hash [game_june1; practice_june2] = Ok h
       ∧ create_schedule_hash [practice_june2; game_june1] = Ok h.
Proof.
  destruct (create_schedule_hash [game_june1; practice_june2]) as [h|e] eqn:Hh;
    [|vm_compute in Hh; discriminate Hh].
  exists h. split; [reflexivity|].
  apply (create_schedule_hash_order_independent
           [game_june1; practice_june2] [practice_june2; game_june1] h).
  - apply Permutation_swap.
  - vm_compute. repeat constructor; intros Hin;
      repeat (apply elem_of_cons in Hin as [Hin|Hin]; [discriminate Hin|]);
      by apply elem_of_nil in Hin.
  - exact Hh.
Defined.

(* ================================================================== *)
(** * Further properties of the change detector's report and run *)
(* ================================================================== *)

Lemma changes_desc_nil arrow o n :
  changes_desc arrow o n = [] ↔ details_differ o n = false.
Proof.
  unfold changes_desc, details_differ.
  repeat case_bool_decide; simpl; split; try done;
    intros H; by apply app_eq_nil in H as [_ ?] || destruct H.
Qed.

(** X14: the formatter describes a modification by the same three fields
    the diff compares: the description of a pair of entries is empty
    exactly when they agree on [team], [venue] and [end_time], never has
    more than three lines, and is non-empty for every triple of every
    report of [detect_changes]. *)
Theorem modified_rows_describe_a_change arrow :
  (∀ o n, changes_desc arrow o n = [] ↔
          get o "team" = get n "team" ∧ get o "venue" = get n "venue"
          ∧ get o "end_time" = get n "end_time")
  ∧ (∀ o n, (length (changes_desc arrow o n) ≤ 3)%nat)
  ∧ (∀ ord old_items new_items r k o n,
       detect_changes ord old_items new_items = Ok r →
       (k, o, n) ∈ modified r → changes_desc arrow o n ≠ []).
Proof.
  split; [|split].
  - intros o n. by rewrite changes_desc_nil, details_differ_false.
  - intros o n. unfold changes_desc.
    repeat case_bool_decide; simpl; rewrite ?length_app; simpl; lia.
  - intros ord old_items new_items r k o n H Hin.
    apply (elem_of_modified _ _ _ _ _ _ _ H) in Hin as (_ & _ & Hd).
    rewrite changes_desc_nil, Hd. done.
Qed.

Lemma modified_rows_describe_a_change_witness :
  changes_desc "->" game_june1 game_june1_moved ≠ [].
Proof.
  destruct (modified_rows_describe_a_change "->") as (_ & _ & H).
  apply (H ascending_order [game_june1] [game_june1_moved]
           {| added := []; removed := [];
              modified := [("2024-06-01_18:00_Game_LeagueA",
                            game_june1, game_june1_moved)];
              has_changes := true |}
           "2024-06-01_18:00_Game_LeagueA").
  - vm_compute. reflexivity.
  - apply list_elem_of_In. left. reflexivity.
Defined.

(** ** The run of the detector *)






(** X17: a report names only entries inside the window: every entry of
    [removed] is an entry of the snapshot that the filter keeps, so its
    date parses and is not before today, and every entry of [added] is an
    entry of the current schedule that the filter keeps; an entry that has
    aged out of the window is never reported as removed. *)
Theorem detector_main_reports_within_window strptime ord now_current
    now_snapshot days current_all snapshot r :
  changes_saved (detector_main strptime ord now_current now_snapshot days
                   current_all snapshot) = Some r →
  ∃ snapshot_all,
    snapshot = Some snapshot_all
    ∧ (∀ e, e ∈ removed r →
            e ∈ snapshot_all
            ∧ ∃ ds dt, e !! "date" = Some ds ∧ strptime ds FmtDate = Some dt
                       ∧ (date_of now_snapshot ≤ date_of dt)%Z)
    ∧ (∀ e, e ∈ added r →
            e ∈ current_all
            ∧ ∃ ds dt, e !! "date" = Some ds ∧ strptime ds FmtDate = Some dt
                       ∧ (date_of now_current ≤ date_of dt)%Z).
Proof.
  unfold detector_main. destruct (is_nil current_all); [done|].
  destruct snapshot as [snapshot_all|]; [|done].
  destruct (detect_changes ord _ _) as [r'|e] eqn:Hd; [|done].
  destruct (has_changes r'); [|done]. intros [= ->].
  exists snapshot_all. split; [done|].
  assert (∀ now items e, e ∈ filter_next_n_days strptime now items days →
            e ∈ items
            ∧ ∃ ds dt, e !! "date" = Some ds ∧ strptime ds FmtDate = Some dt
                       ∧ (date_of now ≤ date_of dt)%Z) as Hwin.
  { intros now items e [Hin Hk]%elem_of_filter_next_n_days. split; [done|].
    apply keeps_inv in Hk as (ds & dt & Hds & Hdt & Hcase).
    exists ds, dt. repeat split; [done..|]. destruct Hcase as [?|[? _]]; lia. }
  split.
  - intros e (k & He & _)%(elem_of_removed _ _ _ _ _ Hd).
    apply entry_under_key in He as [_ He]. by apply Hwin in He.
  - intros e (k & He & _)%(elem_of_added _ _ _ _ _ Hd).
    apply entry_under_key in He as [_ He]. by apply Hwin in He.
Qed.

Lemma detector_main_reports_within_window_witness :
  ∃ snapshot_all,
    Some [game_may31; game_june1] = Some snapshot_all
    ∧ (∀ e, e ∈ [game_june1] →
            e ∈ snapshot_all
            ∧ ∃ ds dt, e !! "date" = Some ds
                       ∧ strptime_padded ds FmtDate = Some dt
                       ∧ (date_of noon_june1 ≤ date_of dt)%Z)
    ∧ (∀ e, e ∈ [game_june8] →
            e ∈ [game_june8]
            ∧ ∃ ds dt, e !! "date" = Some ds
                       ∧ strptime_padded ds FmtDate = Some dt
                       ∧ (date_of noon_june1 ≤ date_of dt)%Z).
Proof.
  apply (detector_main_reports_within_window strptime_padded ascending_order
           noon_june1 noon_june1 7 [game_june8]
           (Some [game_may31; game_june1])
           {| added := [game_june8]; removed := [game_june1];
              modified := []; has_changes := true |}).
  vm_compute. reflexivity.
Defined.

(* ================================================================== *)
(** * The scraper *)
(* ================================================================== *)

(** ** [filter_by_venue] *)

Lemma filter_by_venue_loop_filter venue_filter items : ∀ filtered,
  filter_by_venue_loop venue_filter items filtered
  = (filtered ++ filter (λ it, venue_matches venue_filter it = true) items)%list.
Proof.
  induction items as [|it rest IH]; simpl; intros filtered.
  - by rewrite app_nil_r.
  - rewrite filter_cons. destruct (venue_matches venue_filter it) eqn:Hm.
    + rewrite IH, decide_True by done. by rewrite <- app_assoc.
    + rewrite IH, decide_False by done. done.
Qed.

Lemma filter_by_venue_filter items venue_filter :
  filter_by_venue items venue_filter
  = filter (λ it, venue_matches venue_filter it = true) items.
Proof. apply filter_by_venue_loop_filter. Qed.

Lemma prefix_refl s : String.prefix s s = true.
Proof.
  induction s as [|c s IH]; simpl; [done|]. by destruct (ascii_dec c c).
Qed.

Lemma contains_refl s : contains s s = true.
Proof. destruct s; [done|]. cbn [contains]. by rewrite prefix_refl. Qed.

(** X18: [filter_by_venue] returns a subsequence of its input, keeps only
    items with a non-empty [venue_name], and ignores case: two filters
    with the same lower-casing select the same items, and an item whose
    non-empty venue name equals the filter up to case is kept. *)
Theorem filter_by_venue_ignores_case items venue_filter :
  filter_by_venue items venue_filter `sublist_of` items
  ∧ (∀ it, it ∈ filter_by_venue items venue_filter →
           ∃ v, api_text it !! "venue_name" = Some v ∧ v ≠ ""
                ∧ contains (lower venue_filter) (lower v) = true)
  ∧ (∀ venue_filter', lower venue_filter = lower venue_filter' →
       filter_by_venue items venue_filter = filter_by_venue items venue_filter')
  ∧ (∀ it v, it ∈ items → api_text it !! "venue_name" = Some v → v ≠ "" →
             lower v = lower venue_filter →
             it ∈ filter_by_venue items venue_filter).
Proof.
  rewrite filter_by_venue_filter. split_and!.
  - apply sublist_filter.
  - intros it [Hm _]%list_elem_of_filter. unfold venue_matches in Hm.
    destruct (api_text it !! "venue_name") as [v|]; [|done].
    apply andb_true_iff in Hm as [Hne Hc]. exists v.
    split; [done|]. split; [|done]. by destruct v.
  - intros f' Hf. rewrite filter_by_venue_filter.
    unfold venue_matches. by rewrite Hf.
  - intros it v Hin Hv Hne Hl. apply list_elem_of_filter. split; [|done].
    unfold venue_matches. rewrite Hv, Hl, contains_refl.
    by destruct v.
Qed.

Lemma filter_by_venue_ignores_case_witness :
  api_game_shadow ∈ filter_by_venue [api_practice; api_game_shadow]
                      "Amherst Stadium".
Proof.
  destruct (filter_by_venue_ignores_case [api_practice; api_game_shadow]
              "Amherst Stadium") as (_ & _ & _ & H).
  apply (H api_game_shadow "AMHERST STADIUM").
  - apply list_elem_of_In. right. left. reflexivity.
  - vm_compute. reflexivity.
  - discriminate.
  - vm_compute. reflexivity.
Defined.

(** ** [format_items] *)

Lemma mk_item_dom d s e t l tm v :
  dom (mk_item d s e t l tm v) = schedule_fields.
Proof.
  unfold mk_item, schedule_fields. rewrite !dom_insert_L, dom_empty_L.
  apply set_eq. intros k. rewrite !elem_of_union, !elem_of_singleton.
  rewrite elem_of_empty. tauto.
Qed.

Lemma formatted_slot (x : item) :
  dom x = schedule_fields → date_start_key x = Ok (slot x).
Proof.
  intros Hdom.
  assert (is_Some (x !! "date")) as [d Hd].
  { apply elem_of_dom. rewrite Hdom. unfold schedule_fields.
    rewrite !elem_of_union, !elem_of_singleton. tauto. }
  assert (is_Some (x !! "start_time")) as [s Hs].
  { apply elem_of_dom. rewrite Hdom. unfold schedule_fields.
    rewrite !elem_of_union, !elem_of_singleton. tauto. }
  unfold date_start_key, slot, get_default, getitem. by rewrite Hd, Hs.
Qed.


Lemma split_games_spec items : ∀ games non_games,
  split_games items games non_games
  = ((games ++ (format_game <$>
                  filter (λ it, is_Some (api_game_id it)) items))%list,
     (non_games ++ (format_other <$>
                      filter (λ it, ¬ is_Some (api_game_id it)) items))%list).
Proof.
  induction items as [|it rest IH]; simpl; intros games non_games.
  - by rewrite !app_nil_r.
  - rewrite !filter_cons. case_bool_decide as Hg.
    + rewrite IH, decide_True, decide_False by auto.
      by rewrite fmap_cons, <- app_assoc.
    + rewrite IH, decide_False, decide_True by auto.
      by rewrite fmap_cons, <- app_assoc.
Qed.

Lemma slots_of_spec games :
  Forall (λ x, dom x = schedule_fields) games →
  slots_of games = Ok (list_to_set (slot <$> games)).
Proof.
  induction 1 as [|g rest Hg _ IH]; simpl; [done|].
  by rewrite (formatted_slot _ Hg), IH.
Qed.

Lemma without_slots_spec game_slots non_games :
  Forall (λ x, dom x = schedule_fields) non_games →
  without_slots game_slots non_games
  = Ok (filter (λ ng, slot ng ∉ game_slots) non_games).
Proof.
  induction 1 as [|ng rest Hng _ IH]; simpl; [done|].
  rewrite (formatted_slot _ Hng), IH. rewrite filter_cons.
  cbn [mbind res_bind].
  destruct (decide (slot ng ∉ game_slots)) as [Hd|Hd].
  - by rewrite bool_decide_eq_true_2.
  - by rewrite bool_decide_eq_false_2.
Qed.

(** The games and the other ice times of a list of API items, formatted. *)
Lemma format_game_dom it : dom (format_game it) = schedule_fields.
Proof. apply mk_item_dom. Qed.

Lemma format_other_dom it : dom (format_other it) = schedule_fields.
Proof. apply mk_item_dom. Qed.

Lemma format_items_spec items :
  ∃ out,
    format_items items = Ok out
    ∧ StronglySorted date_start_le out
    ∧ out ≡ₚ
        ((format_game <$> filter (λ it, is_Some (api_game_id it)) items)
         ++ filter (λ ng, slot ng ∉
                      (list_to_set
                         (slot <$> (format_game <$>
                            filter (λ it, is_Some (api_game_id it)) items))
                       : gset (string * string)))
              (format_other <$>
                 filter (λ it, ¬ is_Some (api_game_id it)) items))%list.
Proof.
  unfold format_items. rewrite split_games_spec. simpl.
  set (games := format_game <$> filter _ items).
  set (others := format_other <$> filter _ items).
  assert (Forall (λ x, dom x = schedule_fields) games) as Hg.
  { apply Forall_fmap, Forall_forall. intros it _. apply format_game_dom. }
  assert (Forall (λ x, dom x = schedule_fields) others) as Ho.
  { apply Forall_fmap, Forall_forall. intros it _. apply format_other_dom. }
  rewrite (slots_of_spec _ Hg). simpl.
  rewrite (without_slots_spec _ _ Ho). simpl.
  destruct (sorted_date_start
              (games ++ filter (λ ng, slot ng ∉
                 (list_to_set (slot <$> games) : gset (string * string)))
                 others)%list) as (rows & Hrows & Hperm & Hsorted).
  { apply Forall_app. split.
    - eapply Forall_impl; [exact Hg|]. intros x Hx.
      rewrite (formatted_slot _ Hx). by eexists.
    - apply Forall_forall. intros x [_ Hx]%list_elem_of_filter.
      rewrite Forall_forall in Ho. rewrite (formatted_slot _ (Ho _ Hx)).
      by eexists. }
  exists rows. by rewrite Hrows.
Qed.

Lemma format_items_records items out :
  format_items items = Ok out → Forall (λ x, dom x = schedule_fields) out.
Proof.
  intros H. destruct (format_items_spec items) as (out' & H' & _ & Hperm).
  assert (out' = out) as -> by congruence. rewrite Hperm.
  apply Forall_app. split.
  - apply Forall_fmap, Forall_forall. intros it _. apply format_game_dom.
  - apply Forall_forall. intros x [_ Hx]%list_elem_of_filter.
    apply list_elem_of_fmap in Hx as (it & -> & _). apply format_other_dom.
Qed.

(** X19: [format_items] always returns; its result is sorted ascending by
    [(date, start_time)], and every record in it holds exactly the seven
    fields date, start_time, end_time, type, league, team and venue. *)
Theorem format_items_sorted_records items :
  ∃ out, format_items items = Ok out
         ∧ StronglySorted date_start_le out
         ∧ Forall (λ x, dom x = schedule_fields) out.
Proof.
  destruct (format_items_spec items) as (out & H & Hs & _).
  exists out. split; [done|]. split; [done|].
  by apply (format_items_records items).
Qed.

(** X20: [format_items] keeps every game and drops exactly the other ice
    times that fall on the slot [(date, start_time)] of a game: its result
    is a permutation of the formatted games followed by the formatted
    other items whose slot is not the slot of any game. *)
Theorem format_items_drops_shadowed items out :
  format_items items = Ok out →
  let games :=
    format_game <$> filter (λ it, is_Some (api_game_id it)) items in
  let others :=
    format_other <$> filter (λ it, ¬ is_Some (api_game_id it)) items in
  out ≡ₚ (games ++ filter (λ ng, slot ng ∉ slot <$> games) others)%list
  ∧ (∀ it, it ∈ items → is_Some (api_game_id it) → format_game it ∈ out).
Proof.
  intros H games others.
  destruct (format_items_spec items) as (out' & H' & _ & Hperm).
  assert (out' = out) as -> by congruence. fold games others in Hperm.
  assert (filter (λ ng, slot ng ∉
            (list_to_set (slot <$> games) : gset (string * string))) others
          = filter (λ ng, slot ng ∉ slot <$> games) others) as Hf.
  { apply list_filter_iff. intros ng. by rewrite elem_of_list_to_set. }
  rewrite Hf in Hperm. split; [done|].
  intros it Hin Hg. rewrite Hperm. apply elem_of_app. left.
  apply list_elem_of_fmap. exists it. split; [done|].
  by apply list_elem_of_filter.
Qed.

Lemma format_items_drops_shadowed_witness :
  format_game api_game
    ∈ [format_other api_practice; format_game api_game].
Proof.
  destruct (format_items_drops_shadowed
              [api_practice; api_game_shadow; api_game]
              [format_other api_practice; format_game api_game]) as [_ H].
  - vm_compute. reflexivity.
  - apply (H api_game).
    + apply list_elem_of_In. right. right. left. reflexivity.
    + vm_compute. eauto.
Defined.



(* ================================================================== *)
(** * The recipients of the notifiers *)
(* ================================================================== *)

Lemma is_empty_str_true s : is_empty_str s = true ↔ s = "".
Proof. by destruct s. Qed.

Lemma lstrip_head s :
  match lstrip s with
  | EmptyString => True
  | String c _ => is_space c = false
  end.
Proof.
  induction s as [|c s IH]; simpl; [done|].
  destruct (is_space c) eqn:Hc; [done|]. by rewrite Hc.
Qed.

Lemma lstrip_fixed s :
  match s with
  | EmptyString => True
  | String c _ => is_space c = false
  end → lstrip s = s.
Proof. destruct s as [|c s]; simpl; [done|]. by intros ->. Qed.

Lemma rstrip_head s :
  match s with
  | EmptyString => True
  | String c _ => is_space c = false
  end →
  match rstrip s with
  | EmptyString => True
  | String c _ => is_space c = false
  end.
Proof.
  destruct s as [|c s]; simpl; [done|]. intros Hc.
  rewrite Hc, andb_false_r. done.
Qed.

Lemma rstrip_idemp s : rstrip (rstrip s) = rstrip s.
Proof.
  induction s as [|c s IH]; simpl; [done|].
  destruct (is_empty_str (rstrip s) && is_space c) eqn:Hcond; [done|].
  simpl. by rewrite IH, Hcond.
Qed.

Lemma strip_idemp s : strip (strip s) = strip s.
Proof.
  unfold strip. rewrite lstrip_fixed.
  - apply rstrip_idemp.
  - apply rstrip_head, lstrip_head.
Qed.

Lemma count_char_lstrip c s : (count_char c (lstrip s) ≤ count_char c s)%nat.
Proof.
  induction s as [|x s IH]; simpl; [done|].
  destruct (is_space x); simpl; lia.
Qed.

Lemma count_char_rstrip c s : (count_char c (rstrip s) ≤ count_char c s)%nat.
Proof.
  induction s as [|x s IH]; simpl; [done|].
  destruct (is_empty_str (rstrip s) && is_space x); simpl; lia.
Qed.

Lemma count_char_strip c s : (count_char c (strip s) ≤ count_char c s)%nat.
Proof.
  unfold strip. etrans; [apply count_char_rstrip | apply count_char_lstrip].
Qed.

Lemma split_char_pieces sep s :
  Forall (λ p, count_char sep p = 0%nat) (split_char sep s).
Proof.
  induction s as [|c s IH]; simpl; [by repeat constructor|].
  destruct (Ascii.eqb c sep) eqn:Hc.
  - by constructor.
  - destruct (split_char sep s) as [|p ps]; simpl.
    + repeat constructor. simpl. by rewrite Ascii.eqb_sym, Hc.
    + apply Forall_cons in IH as [Hp Hps]. constructor; [|done].
      simpl. by rewrite Ascii.eqb_sym, Hc.
Qed.

Lemma split_char_length sep s :
  length (split_char sep s) = S (count_char sep s).
Proof.
  induction s as [|c s IH]; simpl; [done|].
  rewrite (Ascii.eqb_sym sep c). destruct (Ascii.eqb c sep); simpl.
  - by rewrite IH.
  - destruct (split_char sep s); simpl in *; done.
Qed.

Lemma split_char_join sep s :
  join (String sep "") (split_char sep s) = s.
Proof.
  induction s as [|c s IH]; simpl; [done|].
  destruct (Ascii.eqb c sep) eqn:Hc.
  - apply Ascii.eqb_eq in Hc as ->.
    pose proof (split_char_length sep s) as Hl.
    destruct (split_char sep s) as [|p ps]; [done|].
    simpl in *. by rewrite IH.
  - pose proof (split_char_length sep s) as Hl.
    destruct (split_char sep s) as [|p ps]; [done|].
    destruct ps as [|q qs]; simpl in *; by rewrite <- IH.
Qed.

Lemma elem_of_strip_nonblank r parts :
  r ∈ strip_nonblank parts ↔ r ≠ "" ∧ ∃ p, p ∈ parts ∧ r = strip p.
Proof.
  induction parts as [|p rest IH]; simpl.
  - split; [by intros ?%elem_of_nil | by intros (_ & p & ?%elem_of_nil & _)].
  - destruct (is_empty_str (strip p)) eqn:He; simpl.
    + rewrite IH. apply is_empty_str_true in He. split.
      * intros (Hne & q & Hq & ->). split; [done|]. exists q.
        split; [by right | done].
      * intros (Hne & q & [->|Hq]%elem_of_cons & ->); [done|]. eauto.
    + rewrite elem_of_cons, IH. split.
      * intros [->|(Hne & q & Hq & ->)].
        -- split; [by intros Hs; rewrite Hs in He|]. exists p.
           split; [by left | done].
        -- split; [done|]. exists q. split; [by right | done].
      * intros (Hne & q & [->|Hq]%elem_of_cons & ->); [by left|].
        right. eauto.
Qed.

(** X22: every recipient of the change notifier is a field of
    [RECIPIENT_EMAILS] with the surrounding white space removed: it is not
    empty, holds no comma and has no white space at either end; when the
    variable is not set there is no recipient. *)
Theorem change_notifier_recipients_clean env_value :
  (∀ r, r ∈ change_notifier_recipients env_value →
        r ≠ "" ∧ count_char "," r = 0%nat ∧ strip r = r
        ∧ ∃ p, p ∈ split_char "," (default "" env_value) ∧ r = strip p)
  ∧ change_notifier_recipients None = [].
Proof.
  split; [|done]. intros r (Hne & p & Hp & ->)%elem_of_strip_nonblank.
  split; [done|]. split; [|split; [apply strip_idemp | eauto]].
  pose proof (split_char_pieces "," (default "" env_value)) as Hall.
  rewrite Forall_forall in Hall. specialize (Hall p Hp).
  pose proof (count_char_strip "," p). lia.
Qed.

Lemma change_notifier_recipients_clean_witness :
  "a@x.org" ≠ "" ∧ count_char "," "a@x.org" = 0%nat
  ∧ strip "a@x.org" = "a@x.org".
Proof.
  destruct (change_notifier_recipients_clean (Some " a@x.org , ,b@y.org,"))
    as [H _].
  destruct (H "a@x.org") as (H1 & H2 & H3 & _).
  - vm_compute. left.
  - split; [exact H1|]. split; [exact H2 | exact H3].
Defined.

(** X23: the weekly notifier keeps one recipient for each comma-separated
    field of [RECIPIENT_EMAILS], blank fields included: the list is never
    empty, its length is the number of commas plus one, and every entry is
    stripped and holds no comma. *)
Theorem weekly_notifier_recipients_fields env_value :
  length (weekly_notifier_recipients env_value)
  = S (count_char "," (default "canteen@example.com" env_value))
  ∧ weekly_notifier_recipients env_value ≠ []
  ∧ ∀ r, r ∈ weekly_notifier_recipients env_value →
         count_char "," r = 0%nat ∧ strip r = r.
Proof.
  unfold weekly_notifier_recipients.
  set (s := default "canteen@example.com" env_value).
  assert (length (strip <$> split_char "," s) = S (count_char "," s)) as Hlen
    by (by rewrite length_fmap, split_char_length).
  split; [done|]. split.
  - intros Hnil. rewrite Hnil in Hlen. done.
  - intros r (p & -> & Hp)%list_elem_of_fmap. split; [|apply strip_idemp].
    pose proof (split_char_pieces "," s) as Hall.
    rewrite Forall_forall in Hall. specialize (Hall p Hp).
    pose proof (count_char_strip "," p). lia.
Qed.
